(** * agGrid.tsx: the row model of the AG Grid demo component

    A shallow embedding of [src/agGrid.tsx]: the record generator
    [generateData] (lines 36-53), the helper [formatCurrency] (lines
    89-94), the handler [restoreColumnState] (lines 136-142) and the state
    updaters of [onCellClicked] (lines 145-162), [onAddRow] (lines 165-180)
    and [onResetData] (lines 183-186), followed by the properties the
    specification states about them.

    What the run-time system provides is modelled from ECMAScript:
    numbers with their rounding, [String], [toFixed], [JSON.parse].  What
    the host decides is an input: the numbers [Math.random] returns, the
    time zone and the clock behind [Date], the answers to [confirm], the
    locale data behind [toLocaleString] and the content of local storage.
    Strings are sequences of bytes, those of the UTF-8 encoding of the
    source text. *)

From Stdlib Require Import ZArith Lia Bool Ascii String.
From Stdlib Require Import DecimalString DecimalPos DecimalZ SpecFloat.
From stdpp Require Import base list strings gmap.

Local Open Scope string_scope.
Local Open Scope list_scope.
Local Open Scope Z_scope.

(** A decimal digit, as a character. *)
Definition is_digit (c : ascii) : bool :=
  (48 <=? nat_of_ascii c)%nat && (nat_of_ascii c <=? 57)%nat.

(** ** JavaScript numbers

    A JavaScript number is an IEEE 754 binary64 value.  The finite
    non-negative ones are written [mant * 2 ^ expo] with an integer
    mantissa below [2 ^ 53] and an exponent of at least [-1074]; a result
    that needs more digits is rounded to the nearest such value, ties going
    to the even mantissa.  The numbers of this program stay far below
    [2 ^ 1024], where a result would become infinite.  An integer-valued
    number is written as the integer it is. *)

Module Num.

Definition precision : Z := 53.
Definition emin : Z := -1074.

(** A non-negative dyadic rational [mant * 2 ^ expo]. *)
Record dyadic : Type := Dyadic { mant : Z; expo : Z }.

(** The exponent of the last place of the binary64 value nearest to
    [m * 2 ^ e], for [0 < m]. *)
Definition ulp_exponent (m e : Z) : Z :=
  Z.max (e + Z.log2 m - (precision - 1)) emin.

(** Round to nearest, ties to even: the binary64 value of the exact
    result [m * 2 ^ e] of an operation ([0 <= m]). *)
Definition round (d : dyadic) : dyadic :=
  let m := mant d in
  let e := expo d in
  if m <=? 0 then d
  else
    let t := ulp_exponent m e in
    if t <=? e then d
    else
      let s := t - e in
      let q := Z.shiftr m s in
      let r := Z.land m (Z.ones s) in
      let h := Z.shiftl 1 (s - 1) in
      let q' := if r <? h then q
                else if h <? r then q + 1
                else if Z.even q then q else q + 1 in
      Dyadic q' t.

(** [d < c] for an integer [c]. *)
Definition lt_Z (d : dyadic) (c : Z) : Prop :=
  mant d * 2 ^ Z.max 0 (expo d) < c * 2 ^ Z.max 0 (- expo d).

(** [Math.floor] on a non-negative value. *)
Definition floor (d : dyadic) : Z :=
  if 0 <=? expo d then Z.shiftl (mant d) (expo d)
  else Z.shiftr (mant d) (- expo d).

(** Multiplication of a non-negative value by a non-negative integer
    constant: the exact product, rounded. *)
Definition mul_int (d : dyadic) (c : Z) : dyadic :=
  round (Dyadic (mant d * c) (expo d)).

(** The binary64 value nearest to an integer; the identity up to
    [2 ^ 53] in absolute value. *)
Definition of_Z (z : Z) : Z :=
  let d := round (Dyadic (Z.abs z) 0) in
  Z.sgn z * Z.shiftl (mant d) (expo d).

(** [a + b] on integer-valued numbers. *)
Definition add (a b : Z) : Z := of_Z (a + b).

(** [a % b]: the remainder has the sign of the dividend. *)
Definition rem (a b : Z) : Z := Z.rem a b.

Definition MAX_SAFE_INTEGER : Z := 2 ^ 53 - 1.

(** [Number.isSafeInteger] on an integer. *)
Definition isSafeInteger (z : Z) : bool :=
  (- MAX_SAFE_INTEGER <=? z) && (z <=? MAX_SAFE_INTEGER).

(** [String(n)] for an integer-valued number below [10 ^ 21] in absolute
    value: its decimal digits, with a leading minus sign when negative. *)
Definition toString (z : Z) : string :=
  NilZero.string_of_int (Z.to_int z).

End Num.

(** ** The host: [Math.random] and [Date]

    [Math.random()] returns a number in the interval from 0 (included) to 1
    (excluded): a mantissa below [2 ^ 53] and an exponent from [-1074] on,
    with a value below 1. *)

Definition is_unit (d : Num.dyadic) : bool :=
  (0 <=? Num.mant d) && (Num.mant d <? 2 ^ Num.precision)
  && (Num.emin <=? Num.expo d) && (Num.expo d <? 0)
  && (Num.mant d <? 2 ^ (- Num.expo d)).

Record unit_double : Type :=
  UnitDouble { ud_value :> Num.dyadic; ud_unit : is_unit ud_value = true }.

(** A computation that draws from [Math.random]: the state is the number
    of draws made so far. *)
Definition Rand (A : Type) : Type := nat -> A * nat.

#[export] Instance Rand_ret : MRet Rand := fun A (x : A) n => (x, n).
#[export] Instance Rand_bind : MBind Rand :=
  fun A B (f : A -> Rand B) (c : Rand A) n => let '(a, n') := c n in f a n'.

(** A counting loop: [body] is run for each value of the counter in turn,
    on the state the previous iteration left. *)
Fixpoint for_each {S : Type} (counter : list Z) (body : Z -> S -> Rand S) (s : S)
  : Rand S :=
  match counter with
  | [] => mret s
  | i :: rest => s' ← body i s; for_each rest body s'
  end.

(** [a[k]] for an integer [k]: [undefined] ([None]) outside the array. *)
Definition index {A : Type} (a : list A) (k : Z) : option A :=
  if 0 <=? k then a !! Z.to_nat k else None.

Definition zeros (n : nat) : string := string_of_list_ascii (replicate n "0"%char).

(** [x.toFixed(f)] for [0 <= x < 10 ^ 21] and [0 < f]: with [n] the integer
    nearest to [x * 10 ^ f] (the larger one of two), the digits of [n],
    padded with zeros to [f + 1] characters, with a point before the last
    [f]. *)
Definition nearest_scaled (x : Num.dyadic) (f : nat) : Z :=
  let m := Num.mant x * 10 ^ Z.of_nat f in
  if 0 <=? Num.expo x then Z.shiftl m (Num.expo x)
  else (2 * m + 2 ^ (- Num.expo x)) / 2 ^ (1 - Num.expo x).

Definition toFixed (x : Num.dyadic) (f : nat) : string :=
  let n := nearest_scaled x f in
  let m := Num.toString n in
  let k := String.length m in
  let m := if (k <=? f)%nat then zeros (f + 1 - k) +:+ m else m in
  let k := String.length m in
  substring 0 (k - f) m +:+ "." +:+ substring (k - f) f m.

(** ** Records *)

Record Row : Type := mkRow {
  id : Z;
  name : string;
  age : Z;
  city : option string;
  product : option string;
  amount : string;
  active : bool;
  joined : string
}.

Definition cities : list string :=
  ["São Paulo"; "Rio de Janeiro"; "Belo Horizonte"; "Porto Alegre"; "Curitiba";
   "Salvador"; "Fortaleza"; "Recife"; "Manaus"; "Brasília"].

Definition products : list string :=
  ["Vinho"; "Café"; "Queijo"; "Cerveja"; "Chocolate"; "Azeite"; "Pão"; "Suco";
   "Arroz"; "Feijão"].

Section Component.

(** The numbers [Math.random] returns, in the order of the calls. *)
Variable random : nat -> unit_double.

(** [new Date(y, m, d).toISOString().slice(0, 10)]: the UTC calendar date
    of local midnight of day [d] of month [m] (from 0) of year [y], which
    depends on the time zone of the host. *)
Variable localDateISO : Z -> Z -> Z -> string.

Definition Math_random : Rand Num.dyadic := fun n => (ud_value (random n), S n).

(** Generate 100 demo rows (lines 36-53).  The loop counter runs over
    1, ..., 100; the two calls of [Math.random] of an iteration are made in
    the order of the fields, [age] first. *)
Definition generateData : Rand (list Row) :=
  for_each (seqZ 1 100) (fun i (rows : list Row) =>
    age_ ← (r ← Math_random; mret (Num.add (Num.floor (Num.mul_int r 60)) 18));
    amount_ ← (r ← Math_random; mret (toFixed (Num.mul_int r 1000) 2));
    mret (rows ++ [
      {| id := i;
         name := "Cliente " +:+ Num.toString i;
         age := age_;
         city := index cities (Num.rem i (Z.of_nat (length cities)));
         product := index products (Num.rem i (Z.of_nat (length products)));
         amount := amount_;
         active := negb (Num.rem i 3 =? 0);
         joined := localDateISO (Num.add 2020 (Num.rem i 6)) (Num.rem i 12)
                                (Num.add (Num.rem i 28) 1) |} ])%list) [].

(** *** The state updaters *)

(** [Math.max(x, ...xs)] *)
Definition Math_max (x : Z) (xs : list Z) : Z := foldl Z.max x xs.

(** [prev.length ? Math.max(...prev.map(r => r.id)) : 0) + 1] *)
Definition nextId (prev : list Row) : Z :=
  Num.add (match id <$> prev with
           | [] => 0
           | x :: xs => Math_max x xs
           end) 1.

(** The city and product names [onAddRow] chooses from. *)
Definition newRowCities : list string :=
  ["São Paulo"; "Rio de Janeiro"; "Belo Horizonte"; "Porto Alegre"].

Definition newRowProducts : list string := ["Vinho"; "Café"; "Queijo"].

(** The updater of [onAddRow] (lines 166-179); [today] is
    [new Date().toISOString().slice(0, 10)] at the time of the call. *)
Definition onAddRow (today : string) (prev : list Row) : Rand (list Row) :=
  let nextId := nextId prev in
  age_ ← (r ← Math_random; mret (Num.add (Num.floor (Num.mul_int r 60)) 18));
  amount_ ← (r ← Math_random; mret (toFixed (Num.mul_int r 1000) 2));
  let newRow :=
    {| id := nextId;
       name := "Cliente " +:+ Num.toString nextId;
       age := age_;
       city := index newRowCities (Num.rem nextId 4);
       product := index newRowProducts (Num.rem nextId 3);
       amount := amount_;
       active := true;
       joined := today |} in
  mret (newRow :: prev).

(** [prev.filter(r => String(r.id) !== String(id))] (line 155), [target]
    being [String(id)]: the attribute [data-id] of the button, a string. *)
Definition deleteRow (target : string) (prev : list Row) : list Row :=
  filter (fun r => Num.toString (id r) <> target) prev.

(** [prev.map(r => (String(r.id) === String(id) ? { ...r, active: !r.active } : r))]
    (line 160) *)
Definition toggleActive (target : string) (prev : list Row) : list Row :=
  (fun r => if decide (Num.toString (id r) = target)
            then {| id := id r; name := name r; age := age r; city := city r;
                    product := product r; amount := amount r;
                    active := negb (active r); joined := joined r |}
            else r) <$> prev.

(** The argument of [onCellClicked], as far as the handler reads it: the
    DOM event, its target and the target's [data-*] attributes. *)
Record Element : Type := { dataset : option (gmap string string) }.
Record DomEvent : Type := { target : option Element }.
Record CellClickedEvent : Type := { event : option DomEvent }.

(** [!s] for a string that may be [undefined] *)
Definition falsy (s : option string) : bool :=
  match s with
  | None => true
  | Some s => bool_decide (s = "")
  end.

(** Handle clicks from action cell buttons (edit/delete) (lines 145-162);
    [confirm] is the answer the user gives to the dialog with the given
    message.  The result is the row sequence after the updaters the
    handler has queued. *)
Definition onCellClicked (confirm : string -> bool) (ev : CellClickedEvent)
    (prev : list Row) : list Row :=
  match event ev with
  | None => prev
  | Some e =>
    match target e with
    | None => prev
    | Some t =>
      let action := dataset t ≫= (.!! "action") in
      let id := dataset t ≫= (.!! "id") in
      if falsy action || falsy id then prev
      else
        let action := default "" action in
        let id := default "" id in
        let rows :=
          if bool_decide (action = "del")
          then if confirm ("Excluir linha id=" +:+ id +:+ "?")
               then deleteRow id prev else prev
          else prev in
        if bool_decide (action = "edit") then toggleActive id rows else rows
    end
  end.

(** The event of a click on a button that carries the attributes
    [data-action] and [data-id], as [actionCellRenderer] writes them. *)
Definition click (action id : string) : CellClickedEvent :=
  {| event := Some {| target := Some
       {| dataset := Some {[ "action" := action; "id" := id ]} |} |} |}.

(** Refresh / reset data (lines 183-186) *)
Definition onResetData (confirm : string -> bool) (prev : list Row)
  : Rand (list Row) :=
  if negb (confirm "Resetar os 100 dados gerados inicialmente?") then mret prev
  else generateData.

End Component.

(** ** [formatCurrency] *)

(** Numbers in general, and the values a cell of the grid holds. *)
Inductive number : Type :=
  | NaN
  | Infinity (negative : bool)
  | Finite (negative : bool) (magnitude : Num.dyadic).

Inductive value : Type :=
  | VUndefined
  | VNull
  | VBool (b : bool)
  | VNumber (n : number)
  | VString (s : string).

Definition isNaN (n : number) : bool :=
  match n with
  | NaN => true
  | _ => false
  end.

Section Currency.

(** The conversion of a string to a number, [NaN] when the string is not
    a numeric literal. *)
Variable StringToNumber : string -> number.

(** [num.toLocaleString('pt-BR', { style: 'currency', currency: 'BRL' })] *)
Variable toLocaleString_ptBR_BRL : number -> string.

(** [Number(value)] on the values above *)
Definition Number (v : value) : number :=
  match v with
  | VUndefined => NaN
  | VNull => Finite false (Num.Dyadic 0 0)
  | VBool b => Finite false (Num.Dyadic (if b then 1 else 0) 0)
  | VNumber n => n
  | VString s => StringToNumber s
  end.

(** Lines 89-94 *)
Definition formatCurrency (v : value) : value :=
  match v with
  | VUndefined | VNull => VString ""
  | _ =>
    let num := Number v in
    if isNaN num then v
    else VString (toLocaleString_ptBR_BRL num)
  end.

End Currency.

(** ** [JSON.parse]

    The JSON grammar of ECMA-404, read from a string of bytes.  A parsed
    text is kept as its syntax tree: a number as its literal, a string as
    the characters between its quotes.  The parser descends on fuel, one
    unit for each value, each list of elements and each list of members
    it enters; [OutOfFuel] is told apart from [SyntaxError]. *)

Module JSON.

#[local] Set Warnings "-register-all".

Inductive json : Type :=
  | JNull
  | JBool (b : bool)
  | JNumber (literal : string)
  | JString (chars : string)
  | JArray (elements : list json)
  | JObject (members : list (string * json)).

Inductive result (A : Type) : Type :=
  | Ok (a : A)
  | SyntaxError
  | OutOfFuel.
Arguments Ok {A} a.
Arguments SyntaxError {A}.
Arguments OutOfFuel {A}.

#[export] Instance result_bind : MBind result :=
  fun A B (k : A -> result B) (r : result A) =>
    match r with
    | Ok a => k a
    | SyntaxError => SyntaxError
    | OutOfFuel => OutOfFuel
    end.

(** The quotation mark. *)
Definition dquote : ascii := ascii_of_nat 34.

Definition is_quote (c : ascii) : bool := Ascii.eqb c dquote.

Definition is_char (c : ascii) (d : string) : bool :=
  match d with
  | String d' EmptyString => Ascii.eqb c d'
  | _ => false
  end.

(** White space: the space, the tab, the line feed and the carriage
    return. *)
Definition is_ws (c : ascii) : bool :=
  is_char c " " || Ascii.eqb c (ascii_of_nat 9)
  || Ascii.eqb c (ascii_of_nat 10) || Ascii.eqb c (ascii_of_nat 13).

Definition is_hex (c : ascii) : bool :=
  is_digit c
  || (65 <=? nat_of_ascii c)%nat && (nat_of_ascii c <=? 70)%nat
  || (97 <=? nat_of_ascii c)%nat && (nat_of_ascii c <=? 102)%nat.

Definition is_control (c : ascii) : bool := (nat_of_ascii c <? 32)%nat.

Definition is_escape (c : ascii) : bool :=
  is_quote c || is_char c "\" || is_char c "/" || is_char c "b"
  || is_char c "f" || is_char c "n" || is_char c "r" || is_char c "t".

Fixpoint skip_ws (s : list ascii) : list ascii :=
  match s with
  | c :: r => if is_ws c then skip_ws r else s
  | [] => []
  end.

Fixpoint span_digits (s : list ascii) : list ascii * list ascii :=
  match s with
  | c :: r =>
    if is_digit c then let '(ds, r') := span_digits r in (c :: ds, r')
    else ([], s)
  | [] => ([], [])
  end.

Fixpoint strip_prefix (p s : list ascii) : option (list ascii) :=
  match p, s with
  | [], _ => Some s
  | c :: p', d :: s' => if Ascii.eqb c d then strip_prefix p' s' else None
  | _ :: _, [] => None
  end.

(** The characters of a string literal, after its opening quote. *)
Fixpoint string_body (s acc : list ascii) : result (list ascii * list ascii) :=
  match s with
  | [] => SyntaxError
  | c :: r =>
    if is_quote c then Ok (rev acc, r)
    else if is_char c "\" then
      match r with
      | e :: r1 =>
        if is_escape e then string_body r1 (e :: c :: acc)
        else if is_char e "u" then
          match r1 with
          | h1 :: h2 :: h3 :: h4 :: r2 =>
            if is_hex h1 && is_hex h2 && is_hex h3 && is_hex h4
            then string_body r2 (h4 :: h3 :: h2 :: h1 :: e :: c :: acc)
            else SyntaxError
          | _ => SyntaxError
          end
        else SyntaxError
      | [] => SyntaxError
      end
    else if is_control c then SyntaxError
    else string_body r (c :: acc)
  end.

Definition frac_part (s : list ascii) : result (list ascii * list ascii) :=
  match s with
  | c :: r =>
    if is_char c "." then
      match span_digits r with
      | ([], _) => SyntaxError
      | (ds, r') => Ok (c :: ds, r')
      end
    else Ok ([], s)
  | [] => Ok ([], [])
  end.

Definition exp_part (s : list ascii) : result (list ascii * list ascii) :=
  match s with
  | c :: r =>
    if is_char c "e" || is_char c "E" then
      let '(sign, r1) :=
        match r with
        | c' :: r' => if is_char c' "+" || is_char c' "-" then ([c'], r') else ([], r)
        | [] => ([], r)
        end in
      match span_digits r1 with
      | ([], _) => SyntaxError
      | (ds, r2) => Ok ((c :: sign ++ ds)%list, r2)
      end
    else Ok ([], s)
  | [] => Ok ([], [])
  end.

(** A number literal: an optional minus sign, an integer part without
    leading zeros, an optional fraction and an optional exponent. *)
Definition number (s : list ascii) : result (list ascii * list ascii) :=
  let '(sign, s1) :=
    match s with
    | c :: r => if is_char c "-" then ([c], r) else ([], s)
    | [] => ([], s)
    end in
  match s1 with
  | [] => SyntaxError
  | c :: r =>
    if negb (is_digit c) then SyntaxError
    else
      let '(int, s2) :=
        if is_char c "0" then ([c], r)
        else let '(ds, r') := span_digits r in (c :: ds, r') in
      '(frac, s3) ← frac_part s2;
      '(exp, s4) ← exp_part s3;
      Ok ((sign ++ int ++ frac ++ exp)%list, s4)
  end.

Definition keyword (k : string) (v : json) (s : list ascii)
  : result (json * list ascii) :=
  match strip_prefix (list_ascii_of_string k) s with
  | Some r => Ok (v, r)
  | None => SyntaxError
  end.

Fixpoint value (fuel : nat) (s : list ascii) : result (json * list ascii) :=
  match fuel with
  | O => OutOfFuel
  | S fuel =>
    match skip_ws s with
    | [] => SyntaxError
    | c :: r =>
      if is_char c "{" then
        match skip_ws r with
        | c' :: r' => if is_char c' "}" then Ok (JObject [], r') else members fuel r []
        | [] => SyntaxError
        end
      else if is_char c "[" then
        match skip_ws r with
        | c' :: r' => if is_char c' "]" then Ok (JArray [], r') else elements fuel r []
        | [] => SyntaxError
        end
      else if is_quote c then
        '(chars, r') ← string_body r [];
        Ok (JString (string_of_list_ascii chars), r')
      else if is_char c "t" then keyword "true" (JBool true) (c :: r)
      else if is_char c "f" then keyword "false" (JBool false) (c :: r)
      else if is_char c "n" then keyword "null" JNull (c :: r)
      else
        '(literal, r') ← number (c :: r);
        Ok (JNumber (string_of_list_ascii literal), r')
    end
  end
with elements (fuel : nat) (s : list ascii) (acc : list json)
  : result (json * list ascii) :=
  match fuel with
  | O => OutOfFuel
  | S fuel =>
    '(v, r) ← value fuel s;
    match skip_ws r with
    | c :: r' =>
      if is_char c "," then elements fuel r' (acc ++ [v])%list
      else if is_char c "]" then Ok (JArray (acc ++ [v])%list, r')
      else SyntaxError
    | [] => SyntaxError
    end
  end
with members (fuel : nat) (s : list ascii) (acc : list (string * json))
  : result (json * list ascii) :=
  match fuel with
  | O => OutOfFuel
  | S fuel =>
    match skip_ws s with
    | q :: r =>
      if is_quote q then
        '(key, r1) ← string_body r [];
        match skip_ws r1 with
        | c :: r2 =>
          if is_char c ":" then
            '(v, r3) ← value fuel r2;
            let acc := (acc ++ [(string_of_list_ascii key, v)])%list in
            match skip_ws r3 with
            | c' :: r4 =>
              if is_char c' "," then members fuel r4 acc
              else if is_char c' "}" then Ok (JObject acc, r4)
              else SyntaxError
            | [] => SyntaxError
            end
          else SyntaxError
        | [] => SyntaxError
        end
      else SyntaxError
    | [] => SyntaxError
    end
  end.

(** A whole text: one value, with nothing but white space after it. *)
Definition parse_with (fuel : nat) (text : string) : result json :=
  '(v, r) ← value fuel (list_ascii_of_string text);
  match skip_ws r with
  | [] => Ok v
  | _ :: _ => SyntaxError
  end.

Definition fuel_for (text : string) : nat := 2 * String.length text + 1.

(** [JSON.parse(text)]: [None] when it throws a [SyntaxError]. *)
Definition parse (text : string) : option json :=
  match parse_with (fuel_for text) text with
  | Ok v => Some v
  | _ => None
  end.

End JSON.

(** ** [restoreColumnState] (lines 136-142)

    What the handler can observe and do: the browser's local storage,
    whether the grid has reported readiness ([gridRef.current] is set), and
    the dialogs and grid calls made so far, in order.  An exception that
    nothing catches ends the handler. *)

Inductive effect : Type :=
  | Alert (message : string)
  | SetColumnState (state : JSON.json).

Inductive exn : Type :=
  | SyntaxError
  | TypeError.

Record world : Type := World {
  localStorage : gmap string string;
  gridReady : bool;
  effects : list effect
}.

Inductive outcome : Type :=
  | Returned (w : world)
  | Threw (e : exn) (w : world).

Definition perform (e : effect) (w : world) : world :=
  {| localStorage := localStorage w;
     gridReady := gridReady w;
     effects := effects w ++ [e] |}.

Definition restoreColumnState (w : world) : outcome :=
  let raw := localStorage w !! "ag-grid-column-state" in
  if falsy raw then Returned (perform (Alert "No saved state") w)
  else
    match JSON.parse (default "" raw) with
    | None => Threw SyntaxError w
    | Some state =>
      if gridReady w
      then Returned (perform (Alert "Column state restored")
                      (perform (SetColumnState state) w))
      else Threw TypeError w
    end.

(** The alerts among the effects, and the column states set. *)
Definition alerts (w : world) : list string :=
  omap (fun e => match e with Alert m => Some m | _ => None end) (effects w).

Definition columnStates (w : world) : list JSON.json :=
  omap (fun e => match e with SetColumnState s => Some s | _ => None end) (effects w).

(** ** Notions the properties are stated with *)

Definition all_digits (s : string) : Prop :=
  Forall (fun c => is_digit c = true) (list_ascii_of_string s).

(** The digits of [s] are a decimal numeral of [n], leading zeros allowed. *)
Definition reads_as (s : string) (n : Z) : Prop :=
  option_map Z.of_uint (NilEmpty.uint_of_string s) = Some n.

(** [s] is a decimal text with [f] decimal places, that of [n / 10 ^ f]:
    digits, a point, and [f] more digits. *)
Definition decimal_text (f : nat) (s : string) (n : Z) : Prop :=
  exists a b : string,
    s = a +:+ "." +:+ b /\ a <> "" /\ String.length b = f
    /\ all_digits a /\ all_digits b /\ reads_as (a +:+ b) n.

(** [m] is the greatest element of [l]. *)
Definition is_max (m : Z) (l : list Z) : Prop :=
  m ∈ l /\ forall x, x ∈ l -> x <= m.

(** The ids of a row sequence are safe integers, the range on which the
    arithmetic of numbers is that of the integers. *)
Definition safe_ids (rows : list Row) : Prop :=
  Forall (fun r => Num.isSafeInteger (id r) = true) rows.

(** The target of a click matches a record: their ids are the same
    string. *)
Definition matches (target : string) (r : Row) : Prop :=
  Num.toString (id r) = target.

#[export] Instance matches_dec (target : string) (r : Row) :
  Decision (matches target r) := decide (Num.toString (id r) = target).

(** Two records agree on every field but [age] and [amount]. *)
Definition agree_but_random (r1 r2 : Row) : Prop :=
  id r1 = id r2 /\ name r1 = name r2 /\ city r1 = city r2
  /\ product r1 = product r2 /\ active r1 = active r2 /\ joined r1 = joined r2.

(** *** The generator in closed form

    The record of the iteration that starts with [n] draws made and has
    [i] in the counter, and the records of successive iterations. *)

Section ClosedForm.

Variable random : nat -> unit_double.
Variable localDateISO : Z -> Z -> Z -> string.

Definition genAge (n : nat) : Z :=
  Num.add (Num.floor (Num.mul_int (random n) 60)) 18.

Definition genAmount (n : nat) : string :=
  toFixed (Num.mul_int (random n) 1000) 2.

Definition genRow (n : nat) (i : Z) : Row :=
  {| id := i;
     name := "Cliente " +:+ Num.toString i;
     age := genAge n;
     city := index cities (Num.rem i (Z.of_nat (length cities)));
     product := index products (Num.rem i (Z.of_nat (length products)));
     amount := genAmount (S n);
     active := negb (Num.rem i 3 =? 0);
     joined := localDateISO (Num.add 2020 (Num.rem i 6)) (Num.rem i 12)
                            (Num.add (Num.rem i 28) 1) |}.

Fixpoint genRows (n : nat) (counter : list Z) : list Row :=
  match counter with
  | [] => []
  | i :: rest => genRow n i :: genRows (S (S n)) rest
  end.

End ClosedForm.

(** *** The component as a transition system

    The row sequence starts as the generated one and changes when the user
    adds a row, clicks in a cell or resets the data. *)

Inductive action : Type :=
  | AddRow (today : string)
  | CellClicked (confirm : string -> bool) (ev : CellClickedEvent)
  | ResetData (confirm : string -> bool).

Section Runs.

Variable random : nat -> unit_double.
Variable localDateISO : Z -> Z -> Z -> string.

Definition step (a : action) (rows : list Row) : Rand (list Row) :=
  match a with
  | AddRow today => onAddRow random today rows
  | CellClicked confirm ev => mret (onCellClicked confirm ev rows)
  | ResetData confirm => onResetData random localDateISO confirm rows
  end.

Fixpoint run (acts : list action) (rows : list Row) : Rand (list Row) :=
  match acts with
  | [] => mret rows
  | a :: rest => rows' ← step a rows; run rest rows'
  end.

(** The rows after the initial render and the actions [acts]. *)
Definition rowData (acts : list action) : Rand (list Row) :=
  rows ← generateData random localDateISO; run acts rows.

End Runs.

(** The ids are between 1 and [100 + k]: what holds after [k] actions. *)
Definition ids_upto (k : nat) (rows : list Row) : Prop :=
  Forall (fun i => 1 <= i <= 100 + Z.of_nat k) (id <$> rows).

(** *** Measures of the JSON parser *)

(** A result that is not out of fuel and leaves fewer than [n]
    characters. *)
Definition good {A : Type} (n : nat) (res : JSON.result (A * list ascii)) : Prop :=
  match res with
  | JSON.Ok (_, r) => (length r < n)%nat
  | JSON.SyntaxError => True
  | JSON.OutOfFuel => False
  end.

(** The same, leaving at most [n] characters. *)
Definition fair {A : Type} (n : nat) (res : JSON.result (A * list ascii)) : Prop :=
  match res with
  | JSON.Ok (_, r) => (length r <= n)%nat
  | JSON.SyntaxError => True
  | JSON.OutOfFuel => False
  end.

(** *** Sample inputs

    A host and a few rows on which the statements below are evaluated. *)

Module Sample.

(** [Math.random] returning 0.5 and 0.75 in turn. *)
Definition random (n : nat) : unit_double :=
  if Nat.even n then UnitDouble (Num.Dyadic 1 (-1)) eq_refl
  else UnitDouble (Num.Dyadic 3 (-2)) eq_refl.

Definition pad2 (z : Z) : string :=
  if z <? 10 then "0" +:+ Num.toString z else Num.toString z.

(** A host whose time zone is UTC, for months 0 to 11 and days that the
    month has. *)
Definition localDateISO (y m d : Z) : string :=
  Num.toString y +:+ "-" +:+ pad2 (m + 1) +:+ "-" +:+ pad2 d.

Definition rows : list Row :=
  [ {| id := 2; name := "Cliente 2"; age := 41; city := Some "Belo Horizonte";
       product := Some "Queijo"; amount := "12.50"; active := true;
       joined := "2022-03-03" |};
    {| id := 1; name := "Cliente 1"; age := 30; city := Some "Rio de Janeiro";
       product := Some "Café"; amount := "7.00"; active := false;
       joined := "2021-02-02" |} ].

(** [Math.random] returning 0 each time. *)
Definition zero (n : nat) : unit_double :=
  UnitDouble (Num.Dyadic 0 (-1)) eq_refl.

(** The user who confirms every dialog. *)
Definition yes (message : string) : bool := true.

(** Stand-ins for the conversion of strings to numbers, right on the
    strings that are no numeric literals, the only ones it is applied to
    below, and for the currency format. *)
Definition StringToNumber (s : string) : number := NaN.
Definition toLocaleString_ptBR_BRL (n : number) : string := "R$ 1,00".

Definition nothingSaved : world :=
  {| localStorage := ∅; gridReady := true; effects := [] |}.

Definition brokenSaved : world :=
  {| localStorage := {[ "ag-grid-column-state" := "{" ]};
     gridReady := true; effects := [] |}.

Definition emptySaved : world :=
  {| localStorage := {[ "ag-grid-column-state" := "" ]};
     gridReady := true; effects := [] |}.

(** A text written over several lines: a line feed and a tab, an empty
    object, a carriage return and a line feed between the brackets. *)
Definition multiline : string :=
  "[" +:+ String (ascii_of_nat 10) (String (ascii_of_nat 9) "{ }")
      +:+ String (ascii_of_nat 13) (String (ascii_of_nat 10) "]").

Definition multilineSaved : world :=
  {| localStorage := {[ "ag-grid-column-state" := multiline ]};
     gridReady := true; effects := [] |}.

End Sample.

(** ** More of the component

    The notions and the parts of [src/agGrid.tsx] that the further
    properties below are about. *)

(** The attribute [data-<name>] of the element a click went to, if the
    event has a DOM event, that has a target, and the target has the
    attribute: [event.event.target.dataset?.<name>]. *)
Definition dataAttribute (name : string) (ev : CellClickedEvent) : option string :=
  e ← event ev; t ← target e; d ← dataset t; d !! name.

(** The message of the dialog that a click on "Excluir" opens. *)
Definition deletePrompt (id : string) : string :=
  "Excluir linha id=" +:+ id +:+ "?".

(** ** [JSON.stringify] and [saveColumnState] (lines 131-135)

    The values [JSON.stringify] is applied to are those a column state is
    made of: [null], booleans, numbers, strings, arrays, and objects as the
    lists of their properties in the order of enumeration.  A number here
    is integer-valued and safe, and is written as the integer it is. *)

Module JS.

#[local] Set Warnings "-register-all".

Inductive jsvalue : Type :=
  | JSNull
  | JSBool (b : bool)
  | JSInt (z : Z)
  | JSString (s : string)
  | JSArray (elements : list jsvalue)
  | JSObject (properties : list (string * jsvalue)).

Definition backslash : ascii := "\"%char.

(** The hexadecimal digit of [n], in lower case. *)
Definition hex_char (n : nat) : ascii :=
  if (n <? 10)%nat then ascii_of_nat (48 + n) else ascii_of_nat (87 + n).

(** One character of a string, as [JSON.stringify] writes it between
    quotes: the quotation mark and the backslash behind a backslash, the
    control characters as [\b], [\t], [\n], [\f], [\r] or [\u00xx], every
    other character as it is. *)
Definition escape_char (c : ascii) : list ascii :=
  let n := nat_of_ascii c in
  if JSON.is_quote c then [backslash; c]
  else if JSON.is_char c "\" then [backslash; c]
  else if (n =? 8)%nat then [backslash; "b"%char]
  else if (n =? 9)%nat then [backslash; "t"%char]
  else if (n =? 10)%nat then [backslash; "n"%char]
  else if (n =? 12)%nat then [backslash; "f"%char]
  else if (n =? 13)%nat then [backslash; "r"%char]
  else if (n <? 32)%nat
       then [backslash; "u"%char; "0"%char; "0"%char;
             hex_char (n / 16); hex_char (n mod 16)]
  else [c].

Definition escape (s : list ascii) : list ascii := flat_map escape_char s.

Definition quote (s : string) : list ascii :=
  JSON.dquote :: escape (list_ascii_of_string s) ++ [JSON.dquote].

(** The parts, with commas between them. *)
Fixpoint join (parts : list (list ascii)) : list ascii :=
  match parts with
  | [] => []
  | p :: rest =>
    match rest with
    | [] => p
    | _ :: _ => p ++ ","%char :: join rest
    end
  end.

(** The text of a value, written without white space. *)
Fixpoint serialize (v : jsvalue) : list ascii :=
  match v with
  | JSNull => list_ascii_of_string "null"
  | JSBool b => list_ascii_of_string (if b then "true" else "false")
  | JSInt z => list_ascii_of_string (Num.toString z)
  | JSString s => quote s
  | JSArray l => "["%char :: join (map serialize l) ++ ["]"%char]
  | JSObject l =>
    "{"%char
    :: join (map (fun kv => quote (fst kv) ++ ":"%char :: serialize (snd kv)) l)
    ++ ["}"%char]
  end.

(** [JSON.stringify(value)] *)
Definition stringify (v : jsvalue) : string := string_of_list_ascii (serialize v).

(** The syntax tree of the text of a value. *)
Definition escaped (s : string) : string :=
  string_of_list_ascii (escape (list_ascii_of_string s)).

Fixpoint tree_of (v : jsvalue) : JSON.json :=
  match v with
  | JSNull => JSON.JNull
  | JSBool b => JSON.JBool b
  | JSInt z => JSON.JNumber (Num.toString z)
  | JSString s => JSON.JString (escaped s)
  | JSArray l => JSON.JArray (map tree_of l)
  | JSObject l =>
    JSON.JObject (map (fun kv => (escaped (fst kv), tree_of (snd kv))) l)
  end.

(** The number of values, lists of elements and lists of properties the
    parser enters on the text of a value. *)
Fixpoint weight (v : jsvalue) : nat :=
  match v with
  | JSArray l => S (sum_list (map (fun x => S (weight x)) l))
  | JSObject l => S (sum_list (map (fun kv => S (weight (snd kv))) l))
  | _ => 1
  end.

(** What may follow a value in a text: nothing, a comma, or the end of
    the array or object it is in. *)
Definition delimited (rest : list ascii) : Prop :=
  match rest with
  | [] => True
  | c :: _ => c = ","%char \/ c = "]"%char \/ c = "}"%char
  end.

(** *** What a parsed text denotes

    [JSON.parse] returns the value that the syntax tree denotes.  The
    value is [None] where it is outside the values above: a number
    written with a fraction or an exponent, a string with half of a
    surrogate pair. *)

Definition traverse {A B : Type} (f : A -> option B) : list A -> option (list B) :=
  fix go (l : list A) : option (list B) :=
    match l with
    | [] => Some []
    | x :: l' => y ← f x; ys ← go l'; Some (y :: ys)
    end.

Definition hex_value (c : ascii) : option N :=
  let n := N_of_ascii c in
  if is_digit c then Some (n - 48)%N
  else if (65 <=? n)%N && (n <=? 70)%N then Some (n - 55)%N
  else if (97 <=? n)%N && (n <=? 102)%N then Some (n - 87)%N
  else None.

(** The code unit of four hexadecimal digits. *)
Definition hex4 (h1 h2 h3 h4 : ascii) : option N :=
  a ← hex_value h1; b ← hex_value h2; c ← hex_value h3; d ← hex_value h4;
  Some (((a * 16 + b) * 16 + c) * 16 + d)%N.

(** The UTF-8 encoding of a code point. *)
Definition utf8 (cp : N) : list ascii :=
  if (cp <? 128)%N then [ascii_of_N cp]
  else if (cp <? 2048)%N
       then [ascii_of_N (192 + cp / 64); ascii_of_N (128 + cp mod 64)]
  else if (cp <? 65536)%N
       then [ascii_of_N (224 + cp / 4096);
             ascii_of_N (128 + (cp / 64) mod 64);
             ascii_of_N (128 + cp mod 64)]
  else [ascii_of_N (240 + cp / 262144);
        ascii_of_N (128 + (cp / 4096) mod 64);
        ascii_of_N (128 + (cp / 64) mod 64);
        ascii_of_N (128 + cp mod 64)].

(** The character a one-letter escape stands for. *)
Definition simple_escape (e : ascii) : option ascii :=
  if JSON.is_quote e then Some e
  else if JSON.is_char e "\" then Some e
  else if JSON.is_char e "/" then Some e
  else if JSON.is_char e "b" then Some (ascii_of_nat 8)
  else if JSON.is_char e "f" then Some (ascii_of_nat 12)
  else if JSON.is_char e "n" then Some (ascii_of_nat 10)
  else if JSON.is_char e "r" then Some (ascii_of_nat 13)
  else if JSON.is_char e "t" then Some (ascii_of_nat 9)
  else None.

Definition is_high_surrogate (cu : N) : bool :=
  (55296 <=? cu)%N && (cu <? 56320)%N.

Definition is_low_surrogate (cu : N) : bool :=
  (56320 <=? cu)%N && (cu <? 57344)%N.

(** The string that the characters between the quotes of a string literal
    stand for. *)
Fixpoint unescape (s : list ascii) : option (list ascii) :=
  match s with
  | [] => Some []
  | c :: r =>
    if JSON.is_char c "\" then
      match r with
      | e :: r1 =>
        if JSON.is_char e "u" then
          match r1 with
          | h1 :: h2 :: h3 :: h4 :: r2 =>
            cu ← hex4 h1 h2 h3 h4;
            if is_high_surrogate cu then
              match r2 with
              | b :: u :: g1 :: g2 :: g3 :: g4 :: r3 =>
                if JSON.is_char b "\" && JSON.is_char u "u" then
                  lo ← hex4 g1 g2 g3 g4;
                  if is_low_surrogate lo
                  then app (utf8 (65536 + (cu - 55296) * 1024 + (lo - 56320))%N)
                         <$> unescape r3
                  else None
                else None
              | _ => None
              end
            else if is_low_surrogate cu then None
            else app (utf8 cu) <$> unescape r2
          | _ => None
          end
        else c' ← simple_escape e; cons c' <$> unescape r1
      | [] => None
      end
    else cons c <$> unescape r
  end.

Definition unescaped (chars : string) : option string :=
  string_of_list_ascii <$> unescape (list_ascii_of_string chars).

(** The number of an integer literal: the nearest number to the integer
    written. *)
Definition number_of_literal (literal : string) : option Z :=
  (fun d => Num.of_Z (Z.of_int d)) <$> NilZero.int_of_string literal.

(** The index a property key stands for, if it is the decimal numeral of
    an integer from 0 to [2 ^ 32 - 2]. *)
Definition index_of_key (k : string) : option Z :=
  match NilEmpty.uint_of_string k with
  | Some u =>
    let z := Z.of_uint u in
    if bool_decide (Num.toString z = k) && (z <? 2 ^ 32 - 1) then Some z else None
  | None => None
  end.

(** A property with an index as its key comes before the property
    [(k', _)] in the enumeration when that key is no index or a greater
    one. *)
Definition index_before (i : Z) (k' : string) : bool :=
  match index_of_key k' with
  | Some j => i <? j
  | None => true
  end.

Fixpoint insert_index (i : Z) (kv : string * jsvalue)
    (props : list (string * jsvalue)) : list (string * jsvalue) :=
  match props with
  | [] => [kv]
  | p :: rest =>
    if index_before i (fst p) then kv :: p :: rest
    else p :: insert_index i kv rest
  end.

(** [object[k] = v] on the properties in the order of enumeration: a
    property that is there keeps its place, a new one with an index as key
    goes among the indices, in ascending order, any other new one to the
    end. *)
Definition define (props : list (string * jsvalue)) (kv : string * jsvalue)
  : list (string * jsvalue) :=
  if bool_decide (fst kv ∈ fst <$> props)
  then (fun p => if bool_decide (fst p = fst kv) then kv else p) <$> props
  else match index_of_key (fst kv) with
       | Some i => insert_index i kv props
       | None => props ++ [kv]
       end.

Fixpoint denote (t : JSON.json) : option jsvalue :=
  match t with
  | JSON.JNull => Some JSNull
  | JSON.JBool b => Some (JSBool b)
  | JSON.JNumber literal => JSInt <$> number_of_literal literal
  | JSON.JString chars => JSString <$> unescaped chars
  | JSON.JArray l => JSArray <$> traverse denote l
  | JSON.JObject m =>
    (fun props => JSObject (foldl define [] props))
      <$> traverse (fun kt => k ← unescaped (fst kt); v ← denote (snd kt);
                              Some (k, v)) m
  end.

(** The properties are listed in the order of enumeration: defining them
    one after the other gives the list. *)
Definition enumerated (props : list (string * jsvalue)) : Prop :=
  foldl define [] props = props.

(** The values that are as described: the numbers safe integers, the
    properties of every object in the order of enumeration. *)
Inductive wellformed : jsvalue -> Prop :=
  | wf_null : wellformed JSNull
  | wf_bool (b : bool) : wellformed (JSBool b)
  | wf_int (z : Z) : Num.isSafeInteger z = true -> wellformed (JSInt z)
  | wf_string (s : string) : wellformed (JSString s)
  | wf_array (l : list jsvalue) : Forall wellformed l -> wellformed (JSArray l)
  | wf_object (l : list (string * jsvalue)) :
      enumerated l -> Forall (fun kv => wellformed (snd kv)) l ->
      wellformed (JSObject l).

(** The parser reads the text of [v] back as its syntax tree, whatever
    follows, on fuel of at least the weight of [v]. *)
Definition parses (v : jsvalue) : Prop :=
  forall (rest : list ascii) (fuel : nat),
    delimited rest -> (weight v <= fuel)%nat ->
    JSON.value fuel (serialize v ++ rest) = JSON.Ok (tree_of v, rest).

End JS.

(** [localStorage.setItem(key, value)] *)
Definition setItem (key value : string) (w : world) : world :=
  {| localStorage := <[key := value]> (localStorage w);
     gridReady := gridReady w;
     effects := effects w |}.

(** Lines 131-135; [colState] is what [gridRef.current.getColumnState()]
    returns. *)
Definition saveColumnState (colState : JS.jsvalue) (w : world) : outcome :=
  if gridReady w
  then Returned (perform (Alert "Column state saved to localStorage")
                  (setItem "ag-grid-column-state" (JS.stringify colState) w))
  else Threw TypeError w.

(** ** Sample inputs, further *)

Module Saved.

(** The state of two columns. *)
Definition colState : JS.jsvalue :=
  JS.JSArray
    [ JS.JSObject [ ("colId", JS.JSString "id"); ("width", JS.JSInt 90);
                    ("hide", JS.JSBool false); ("pinned", JS.JSNull) ];
      JS.JSObject [ ("colId", JS.JSString "name"); ("width", JS.JSInt 180);
                    ("hide", JS.JSBool true); ("pinned", JS.JSString "left") ] ].

(** A state is saved, written over several lines, and the grid has not
    reported readiness. *)
Definition notReady : world :=
  {| localStorage := {[ "ag-grid-column-state" := Sample.multiline ]};
     gridReady := false; effects := [] |}.

End Saved.

(** * Properties *)

(** ** Numbers *)

Lemma round_small (m : Z) :
  0 <= m < 2 ^ 53 -> Num.round (Num.Dyadic m 0) = Num.Dyadic m 0.
Proof.
  intros Hm. unfold Num.round. simpl.
  destruct (Z.leb_spec m 0) as [|Hpos]; [done|].
  assert (Hl : Z.log2 m < 53) by (apply Z.log2_lt_pow2; lia).
  unfold Num.ulp_exponent, Num.precision, Num.emin.
  destruct (Z.leb_spec (Z.max (0 + Z.log2 m - (53 - 1)) (-1074)) 0); [done | lia].
Qed.

(** Integers up to [2 ^ 53] in absolute value are numbers. *)
Lemma of_Z_exact (z : Z) : Z.abs z <= 2 ^ 53 -> Num.of_Z z = z.
Proof.
  intros Hz. unfold Num.of_Z.
  destruct (Z.eq_dec (Z.abs z) (2 ^ 53)) as [He | Hne].
  - rewrite He. destruct z; try discriminate; simpl in He; inversion He; reflexivity.
  - rewrite round_small by lia. simpl. rewrite Z.shiftl_0_r. lia.
Qed.

Lemma add_exact (a b : Z) : Z.abs (a + b) <= 2 ^ 53 -> Num.add a b = a + b.
Proof. apply of_Z_exact. Qed.

Lemma isSafeInteger_spec (z : Z) :
  Num.isSafeInteger z = true <-> - (2 ^ 53 - 1) <= z <= 2 ^ 53 - 1.
Proof.
  unfold Num.isSafeInteger, Num.MAX_SAFE_INTEGER.
  rewrite andb_true_iff, !Z.leb_le. reflexivity.
Qed.

Lemma is_unit_spec (r : Num.dyadic) :
  is_unit r = true ->
  0 <= Num.mant r < 2 ^ 53 /\ -1074 <= Num.expo r < 0
  /\ Num.mant r < 2 ^ (- Num.expo r).
Proof.
  unfold is_unit, Num.precision, Num.emin. intros H.
  repeat (apply andb_prop in H as [H ?]). lia.
Qed.

(** Rounding to nearest moves a value by at most half a unit of the last
    place kept. *)
Lemma round_up_bound (m s : Z) :
  0 <= m -> 1 <= s ->
  let q := Z.shiftr m s in
  let r := Z.land m (Z.ones s) in
  let h := Z.shiftl 1 (s - 1) in
  let q' := if r <? h then q else if h <? r then q + 1
            else if Z.even q then q else q + 1 in
  0 <= q' /\ q' * 2 ^ s <= m + 2 ^ (s - 1).
Proof.
  intros Hm Hs. cbv zeta.
  rewrite Z.shiftr_div_pow2, Z.land_ones, Z.shiftl_mul_pow2 by lia.
  rewrite Z.mul_1_l.
  assert (Hp : 2 ^ s = 2 * 2 ^ (s - 1)).
  { rewrite <- Z.pow_succ_r by lia. f_equal. lia. }
  assert (Hh : 0 < 2 ^ (s - 1)) by (apply Z.pow_pos_nonneg; lia).
  pose proof (Z.div_mod m (2 ^ s) ltac:(lia)) as Hdm.
  pose proof (Z.mod_pos_bound m (2 ^ s) ltac:(lia)) as Hr.
  assert (Hq : 0 <= m / 2 ^ s) by (apply Z.div_pos; lia).
  set (q := m / 2 ^ s) in *. set (r := m mod 2 ^ s) in *.
  set (h := 2 ^ (s - 1)) in *.
  assert (Hqs : q * 2 ^ s = m - r) by lia.
  repeat case_match; split; try lia.
  all: try (rewrite Z.mul_add_distr_r, Hqs; lia).
Qed.

(** The product of a number below 1 and an integer [c] stays below [c],
    rounding included. *)
Lemma mul_int_bound (r : Num.dyadic) (c : Z) :
  is_unit r = true -> 1 <= c < 2 ^ 52 ->
  Num.expo (Num.mul_int r c) < 0
  /\ 0 <= Num.mant (Num.mul_int r c) < c * 2 ^ (- Num.expo (Num.mul_int r c)).
Proof.
  intros Hr Hc. apply is_unit_spec in Hr as (Hm & He & Hlt).
  destruct r as [m0 e]. simpl in *.
  assert (Hpe : 0 < 2 ^ (- e)) by (apply Z.pow_pos_nonneg; lia).
  unfold Num.mul_int, Num.round. simpl.
  destruct (Z.leb_spec (m0 * c) 0) as [Hz | Hpos]; simpl.
  { split; [lia | nia]. }
  unfold Num.ulp_exponent, Num.precision, Num.emin.
  set (l := Z.log2 (m0 * c)).
  destruct (Z.leb_spec (Z.max (e + l - (53 - 1)) (-1074)) e) as [Hex | Hrd]; simpl.
  { split; [lia | nia]. }
  assert (Ht : Z.max (e + l - (53 - 1)) (-1074) = e + l - 52) by lia.
  rewrite Ht in *. clear Ht.
  replace (e + l - 52 - e) with (l - 52) by lia.
  assert (Hs : 1 <= l - 52) by lia.
  pose proof (round_up_bound (m0 * c) (l - 52) ltac:(lia) Hs) as [Hq0 Hq].
  cbv zeta in Hq0, Hq.
  set (q' := if _ <? _ then _ else _) in *.
  destruct (Z.log2_spec (m0 * c) Hpos) as [Hlo _]. fold l in Hlo.
  assert (Hl : l < 52 - e).
  { apply Z.log2_lt_pow2; [lia |].
    replace (52 - e) with (52 + - e) by lia. rewrite Z.pow_add_r by lia.
    change (2 ^ 52) with 4503599627370496 in *. nia. }
  split; [lia |]. split; [exact Hq0 |].
  assert (Hh : 2 ^ (l - 52 - 1) * 2 ^ 53 <= m0 * c).
  { rewrite <- Z.pow_add_r by lia. replace (l - 52 - 1 + 53) with l by lia. exact Hlo. }
  assert (Hhc : 2 ^ (l - 52 - 1) < c) by nia.
  assert (Hsum : m0 * c + 2 ^ (l - 52 - 1) < c * 2 ^ (- e)) by nia.
  assert (Hsplit : 2 ^ (- e) = 2 ^ (- (e + l - 52)) * 2 ^ (l - 52)).
  { rewrite <- Z.pow_add_r by lia. f_equal. lia. }
  assert (Hps : 0 < 2 ^ (l - 52)) by (apply Z.pow_pos_nonneg; lia).
  rewrite Hsplit in Hsum. nia.
Qed.

Lemma mul_int_lt (r : Num.dyadic) (c : Z) :
  is_unit r = true -> 1 <= c < 2 ^ 52 -> Num.lt_Z (Num.mul_int r c) c.
Proof.
  intros Hr Hc. destruct (mul_int_bound r c Hr Hc) as (He & Hm0 & Hm).
  unfold Num.lt_Z. rewrite Z.max_l, Z.max_r by lia. simpl. lia.
Qed.

Lemma floor_mul_int (r : Num.dyadic) (c : Z) :
  is_unit r = true -> 1 <= c < 2 ^ 52 ->
  0 <= Num.floor (Num.mul_int r c) <= c - 1.
Proof.
  intros Hr Hc. destruct (mul_int_bound r c Hr Hc) as (He & Hm0 & Hm).
  unfold Num.floor. destruct (Z.leb_spec 0 (Num.expo (Num.mul_int r c))); [lia |].
  rewrite Z.shiftr_div_pow2 by lia.
  assert (Hp : 0 < 2 ^ (- Num.expo (Num.mul_int r c))) by (apply Z.pow_pos_nonneg; lia).
  split; [apply Z.div_pos; lia |].
  apply Z.lt_succ_r. replace (Z.succ (c - 1)) with c by lia.
  apply Z.div_lt_upper_bound; lia.
Qed.

Lemma nearest_scaled_mul_int (r : Num.dyadic) (c : Z) (f : nat) :
  is_unit r = true -> 1 <= c < 2 ^ 52 ->
  0 <= nearest_scaled (Num.mul_int r c) f <= c * 10 ^ Z.of_nat f.
Proof.
  intros Hr Hc. destruct (mul_int_bound r c Hr Hc) as (He & Hm0 & Hm).
  unfold nearest_scaled. destruct (Z.leb_spec 0 (Num.expo (Num.mul_int r c))); [lia |].
  set (d := Num.mul_int r c) in *.
  assert (Hp : 0 < 2 ^ (- Num.expo d)) by (apply Z.pow_pos_nonneg; lia).
  assert (Hf : 0 < 10 ^ Z.of_nat f) by (apply Z.pow_pos_nonneg; lia).
  replace (1 - Num.expo d) with (Z.succ (- Num.expo d)) by lia.
  rewrite Z.pow_succ_r by lia.
  split; [apply Z.div_pos; nia |].
  apply Z.lt_succ_r. apply Z.div_lt_upper_bound; [lia |]. nia.
Qed.

(** *** The rounding against the Standard Library's binary64

    [SFmul 53 1024] and [SFadd 53 1024] are the IEEE 754 binary64
    multiplication and addition of the Standard Library; on these inputs
    the operations of [Num] return the same values. *)

Example mul_int_60_binary64 :
  SFmul 53 1024 (S754_finite false 4840982077732228 (-55)) (S754_finite false 60 0)
  = S754_finite false 4538420697873964 (-49)
  /\ Num.mul_int (Num.Dyadic 4840982077732228 (-55)) 60
     = Num.Dyadic 4538420697873964 (-49).
Proof. split; vm_compute; reflexivity. Qed.

Example mul_int_1000_binary64 :
  SFmul 53 1024 (S754_finite false 7633004523783416 (-53)) (S754_finite false 1000 0)
  = S754_finite false 7454105980257242 (-43)
  /\ Num.mul_int (Num.Dyadic 7633004523783416 (-53)) 1000
     = Num.Dyadic 7454105980257242 (-43).
Proof. split; vm_compute; reflexivity. Qed.

Example mul_int_subnormal_binary64 :
  SFmul 53 1024 (S754_finite false 1 (-1074)) (S754_finite false 60 0)
  = S754_finite false 60 (-1074)
  /\ Num.mul_int (Num.Dyadic 1 (-1074)) 60 = Num.Dyadic 60 (-1074).
Proof. split; vm_compute; reflexivity. Qed.

Example add_binary64 :
  SFadd 53 1024 (S754_finite false (2 ^ 53) 0) (S754_finite false 1 0)
  = S754_finite false (2 ^ 52) 1
  /\ Num.add (2 ^ 53) 1 = 2 ^ 53
  /\ SFadd 53 1024 (S754_finite false (2 ^ 53 + 2) 0) (S754_finite false 1 0)
     = S754_finite false (2 ^ 52 + 2) 1
  /\ Num.add (2 ^ 53 + 2) 1 = 2 ^ 53 + 4.
Proof. repeat split; vm_compute; reflexivity. Qed.

(** [(0.625).toFixed(2)] is "0.63", [(1.005).toFixed(2)] is "1.00" and
    [(999.995).toFixed(2)] is "1000.00". *)
Example toFixed_examples :
  toFixed (Num.Dyadic 5 (-3)) 2 = "0.63"
  /\ toFixed (Num.Dyadic 4526117625507348 (-52)) 2 = "1.00"
  /\ toFixed (Num.Dyadic 8796049041742889 (-43)) 2 = "1000.00".
Proof. repeat split; vm_compute; reflexivity. Qed.

(** ** Strings *)

Lemma chars_substring (i j : nat) (s : string) :
  list_ascii_of_string (substring i j s) = take j (drop i (list_ascii_of_string s)).
Proof.
  revert i j. induction s as [| c s IH]; intros i j.
  - destruct i, j; reflexivity.
  - destruct i as [| i]; simpl.
    + destruct j as [| j]; simpl; [reflexivity |]. by rewrite IH.
    + apply IH.
Qed.

Lemma chars_append (a b : string) :
  list_ascii_of_string (a +:+ b)
  = (list_ascii_of_string a ++ list_ascii_of_string b)%list.
Proof. induction a as [| c a IH]; simpl; [reflexivity |]. by rewrite IH. Qed.

Lemma chars_length (s : string) :
  String.length s = length (list_ascii_of_string s).
Proof. induction s; simpl; congruence. Qed.

Lemma substring_split (k : nat) (s : string) :
  (k <= String.length s)%nat ->
  substring 0 k s +:+ substring k (String.length s - k) s = s.
Proof.
  intros Hk.
  assert (H : list_ascii_of_string
                (substring 0 k s +:+ substring k (String.length s - k) s)
              = list_ascii_of_string s).
  { rewrite chars_append, !chars_substring, chars_length. simpl.
    rewrite (take_ge (drop k _)) by (rewrite length_drop; lia).
    apply take_drop. }
  apply (f_equal string_of_list_ascii) in H.
  by rewrite !string_of_list_ascii_of_string in H.
Qed.

Lemma zeros_digits (n : nat) : all_digits (zeros n).
Proof.
  unfold all_digits, zeros. rewrite list_ascii_of_string_of_list_ascii.
  apply Forall_replicate. reflexivity.
Qed.

Lemma zeros_length (n : nat) : String.length (zeros n) = n.
Proof.
  unfold zeros. rewrite chars_length, list_ascii_of_string_of_list_ascii.
  apply length_replicate.
Qed.

Lemma string_of_uint_digits (d : Decimal.uint) :
  all_digits (NilEmpty.string_of_uint d).
Proof. unfold all_digits. induction d; simpl; constructor; done. Qed.

Lemma string_of_uint_nonnil (d : Decimal.uint) :
  d <> Decimal.Nil -> NilZero.string_of_uint d = NilEmpty.string_of_uint d.
Proof. by destruct d. Qed.

Lemma toString_digits (n : Z) : 0 <= n -> all_digits (Num.toString n).
Proof.
  intros Hn. unfold Num.toString. destruct n as [| p | p]; [| | lia].
  - repeat constructor.
  - cbn [Z.to_int NilZero.string_of_int].
    rewrite string_of_uint_nonnil by apply DecimalPos.Unsigned.to_uint_nonnil.
    apply string_of_uint_digits.
Qed.

Lemma toString_nonempty (n : Z) : Num.toString n <> "".
Proof.
  unfold Num.toString. destruct n as [| p | p]; simpl; try done.
  pose proof (DecimalPos.Unsigned.to_uint_nonnil p) as Hnil.
  unfold NilZero.string_of_uint. destruct (Pos.to_uint p); done.
Qed.

(** Distinct integers have distinct strings: comparing ids as strings is
    comparing them as integers. *)
Lemma toString_inj (a b : Z) : Num.toString a = Num.toString b -> a = b.
Proof.
  unfold Num.toString. intros H. apply DecimalZ.to_int_inj.
  assert (Hok : forall z, Z.to_int z <> Decimal.Pos Decimal.Nil
                          /\ Z.to_int z <> Decimal.Neg Decimal.Nil).
  { intros [| p | p]; simpl; split; try done;
      intros [= E]; by apply (DecimalPos.Unsigned.to_uint_nonnil p). }
  destruct (Hok a), (Hok b).
  apply (f_equal NilZero.int_of_string) in H.
  rewrite !NilZero.isi in H by done. by inversion H.
Qed.

Lemma reads_as_zeros (j : nat) (s : string) (n : Z) :
  reads_as s n -> reads_as (zeros j +:+ s) n.
Proof.
  unfold reads_as. intros H. induction j as [| j IH]; [exact H |].
  change (zeros (S j) +:+ s) with (String "0" (zeros j +:+ s)).
  simpl. destruct (NilEmpty.uint_of_string (zeros j +:+ s)); [| done].
  exact IH.
Qed.

Lemma reads_as_toString (n : Z) : 0 <= n -> reads_as (Num.toString n) n.
Proof.
  intros Hn. unfold reads_as, Num.toString.
  destruct n as [| p | p]; [reflexivity | | lia].
  cbn [Z.to_int NilZero.string_of_int].
  rewrite string_of_uint_nonnil by apply DecimalPos.Unsigned.to_uint_nonnil.
  rewrite NilEmpty.usu. simpl.
  unfold Z.of_uint. rewrite DecimalPos.Unsigned.of_to. reflexivity.
Qed.

(** [toFixed] writes the nearest multiple of [10 ^ - f] with [f] decimal
    places. *)
Lemma toFixed_format (x : Num.dyadic) (f : nat) :
  0 <= nearest_scaled x f -> (0 < f)%nat ->
  decimal_text f (toFixed x f) (nearest_scaled x f).
Proof.
  intros Hn Hf. unfold toFixed.
  set (n := nearest_scaled x f) in *.
  pose proof (toString_digits n Hn) as Hd.
  pose proof (toString_nonempty n) as Hne.
  pose proof (reads_as_toString n Hn) as Hrd.
  set (m := Num.toString n) in *.
  set (m' := if (String.length m <=? f)%nat then _ else m).
  assert (Hd' : all_digits m').
  { subst m'. case_match; [| done]. unfold all_digits. rewrite chars_append.
    apply Forall_app. split; [apply zeros_digits | done]. }
  assert (Hrd' : reads_as m' n).
  { subst m'. case_match; [| done]. by apply reads_as_zeros. }
  assert (Hk : (f + 1 <= String.length m')%nat).
  { subst m'. destruct (Nat.leb_spec (String.length m) f) as [Hle | Hgt]; [| lia].
    rewrite chars_length, chars_append, length_app, <- !chars_length, zeros_length.
    lia. }
  clearbody m'. unfold all_digits in Hd'.
  exists (substring 0 (String.length m' - f) m'), (substring (String.length m' - f) f m').
  split; [done |]. split; [| split; [| split; [| split]]].
  - intros E. apply (f_equal String.length) in E.
    rewrite !chars_length, chars_substring, length_take, length_drop in E.
    rewrite chars_length in Hk. simpl in E. lia.
  - rewrite chars_length, chars_substring, length_take, length_drop, <- chars_length.
    lia.
  - unfold all_digits. rewrite chars_substring. by apply Forall_take, Forall_drop.
  - unfold all_digits. rewrite chars_substring. by apply Forall_take, Forall_drop.
  - pose proof (substring_split (String.length m' - f) m' ltac:(lia)) as Hsp.
    replace (String.length m' - (String.length m' - f))%nat with f in Hsp by lia.
    by rewrite Hsp.
Qed.

(** ** The row generator *)

Section Generator.

Variable random : nat -> unit_double.
Variable localDateISO : Z -> Z -> Z -> string.

Lemma generateData_closed_form (n : nat) :
  generateData random localDateISO n
  = (genRows random localDateISO n (seqZ 1 100), (n + 200)%nat).
Proof.
  unfold generateData.
  change 200%nat with (2 * length (seqZ 1 100))%nat.
  rewrite <- (app_nil_l (genRows _ _ _ _)).
  set (body := fun (i : Z) (rows : list Row) => _).
  generalize (@nil Row). revert n.
  induction (seqZ 1 100) as [| i l IH]; intros n rows.
  - simpl. unfold mret, Rand_ret. by rewrite app_nil_r, Nat.add_0_r.
  - cbn [for_each]. unfold mbind, Rand_bind at 1.
    unfold body at 1. unfold mbind, Rand_bind, mret, Rand_ret, Math_random.
    rewrite IH. cbn [genRows length]. rewrite <- app_assoc. simpl.
    f_equal. lia.
Qed.

Lemma genRows_ids (n : nat) (counter : list Z) :
  id <$> genRows random localDateISO n counter = counter.
Proof.
  revert n. induction counter as [| i l IH]; intros n; simpl; [done |].
  by rewrite IH.
Qed.

Lemma genRows_elem (n : nat) (counter : list Z) (r : Row) :
  r ∈ genRows random localDateISO n counter ->
  exists k i, i ∈ counter /\ r = genRow random localDateISO k i.
Proof.
  revert n. induction counter as [| i l IH]; intros n; simpl.
  - by intros ?%elem_of_nil.
  - intros [-> | Hin]%elem_of_cons.
    + exists n, i. split; [left | done].
    + destruct (IH _ Hin) as (k & j & Hj & ->). exists k, j. split; [by right | done].
Qed.

Lemma genAge_range (n : nat) : 18 <= genAge random n <= 77.
Proof.
  unfold genAge.
  pose proof (floor_mul_int (random n) 60 (ud_unit (random n)) ltac:(lia)) as Hf.
  rewrite add_exact; lia.
Qed.

Lemma genAmount_text (n : nat) :
  exists k, 0 <= k <= 100000 /\ decimal_text 2 (genAmount random n) k.
Proof.
  unfold genAmount.
  pose proof (nearest_scaled_mul_int (random n) 1000 2 (ud_unit (random n))
                ltac:(lia)) as Hk.
  exists (nearest_scaled (Num.mul_int (random n) 1000) 2).
  split; [exact Hk |]. apply toFixed_format; lia.
Qed.

Lemma index_rem {A : Type} (a : list A) (i : Z) :
  0 <= i -> a <> [] ->
  exists x, index a (Num.rem i (Z.of_nat (length a))) = Some x /\ x ∈ a.
Proof.
  intros Hi Ha. unfold index, Num.rem.
  assert (Hl : 0 < Z.of_nat (length a)) by (destruct a; simpl; [done | lia]).
  rewrite Z.rem_mod_nonneg by lia.
  pose proof (Z.mod_pos_bound i (Z.of_nat (length a)) Hl) as Hb.
  destruct (Z.leb_spec 0 (i mod Z.of_nat (length a))); [| lia].
  destruct (lookup_lt_is_Some_2 a (Z.to_nat (i mod Z.of_nat (length a))))
    as [x Hx]; [lia |].
  exists x. split; [done |]. by eapply list_elem_of_lookup_2.
Qed.

End Generator.

(** C5: the row generator returns exactly 100 records with the ids 1, 2,
    ..., 100 in this order (so pairwise distinct); in every record the name
    is "Cliente " followed by the id, the age is an integer from 18 to 77,
    the city is one of the 10 city names and the product one of the 10
    product names, and the amount is a decimal text with 2 decimal places,
    written by [toFixed] from a value of at least 0 and below 1000. *)
Theorem generateData_records
    (random : nat -> unit_double) (localDateISO : Z -> Z -> Z -> string) (n : nat) :
  let rows := (generateData random localDateISO n).1 in
  length rows = 100%nat
  /\ (forall (k : nat) (r : Row), rows !! k = Some r -> id r = Z.of_nat k + 1)
  /\ NoDup (id <$> rows)
  /\ length cities = 10%nat /\ length products = 10%nat
  /\ forall r : Row, r ∈ rows ->
       name r = "Cliente " +:+ Num.toString (id r)
       /\ 18 <= age r <= 77
       /\ (exists c, city r = Some c /\ c ∈ cities)
       /\ (exists p, product r = Some p /\ p ∈ products)
       /\ exists (x : Num.dyadic) (k : Z),
            amount r = toFixed x 2 /\ 0 <= Num.mant x /\ Num.lt_Z x 1000
            /\ 0 <= k <= 100000 /\ decimal_text 2 (amount r) k.
Proof.
  cbv zeta. rewrite generateData_closed_form. cbn [fst].
  assert (Hids := genRows_ids random localDateISO n (seqZ 1 100)).
  split; [| split; [| split; [| split; [| split]]]].
  - rewrite <- (length_fmap id), Hids, length_seqZ. reflexivity.
  - intros k r Hr.
    assert (Hk : (id <$> genRows random localDateISO n (seqZ 1 100)) !! k = Some (id r))
      by (by rewrite list_lookup_fmap, Hr).
    rewrite Hids in Hk. apply lookup_seqZ in Hk. lia.
  - rewrite Hids. apply NoDup_seqZ.
  - reflexivity.
  - reflexivity.
  - intros r Hr. apply genRows_elem in Hr as (k & i & Hi & ->).
    apply elem_of_seqZ in Hi. cbn [id name age city product amount genRow].
    split; [reflexivity |]. split; [apply genAge_range |].
    split; [apply index_rem; [lia | done] |].
    split; [apply index_rem; [lia | done] |].
    pose proof (mul_int_bound (random (S k)) 1000 (ud_unit _) ltac:(lia))
      as (_ & Hm & _).
    pose proof (nearest_scaled_mul_int (random (S k)) 1000 2 (ud_unit _) ltac:(lia))
      as Hk.
    eexists _, _. split; [reflexivity |]. split; [exact Hm |].
    split; [apply mul_int_lt; [apply ud_unit | lia] |].
    split; [exact Hk |]. apply toFixed_format; lia.
Qed.

(** C6: in every record the row generator produces, [active] is false if
    and only if the id is divisible by 3. *)
Theorem generateData_active
    (random : nat -> unit_double) (localDateISO : Z -> Z -> Z -> string) (n : nat) :
  Forall (fun r => active r = false <-> (3 | id r))
         (generateData random localDateISO n).1.
Proof.
  rewrite generateData_closed_form. cbn [fst].
  apply Forall_forall. intros r Hr.
  apply genRows_elem in Hr as (k & i & Hi & ->).
  cbn [id active genRow]. unfold Num.rem.
  rewrite negb_false_iff, Z.eqb_eq. apply Z.rem_divide. lia.
Qed.

(** C9: two runs of the row generator, on any two sequences of random
    numbers, give sequences that agree record by record on id, name, city,
    product, active and joined. *)
Theorem generateData_deterministic_fields
    (random1 random2 : nat -> unit_double)
    (localDateISO : Z -> Z -> Z -> string) (n1 n2 : nat) :
  Forall2 agree_but_random
          (generateData random1 localDateISO n1).1
          (generateData random2 localDateISO n2).1.
Proof.
  rewrite !generateData_closed_form. cbn [fst].
  revert n1 n2. induction (seqZ 1 100) as [| i l IH]; intros n1 n2; simpl.
  - constructor.
  - constructor; [by repeat split | apply IH].
Qed.

(** The two other fields do depend on the random numbers: the first
    record of a run on draws of 0.5 and 0.75 and that of a run on draws of
    0 differ in both. *)
Example generateData_random_fields :
  (age <$> head (generateData Sample.random Sample.localDateISO 0%nat).1,
   amount <$> head (generateData Sample.random Sample.localDateISO 0%nat).1)
  = (Some 48, Some "750.00")
  /\ (age <$> head (generateData Sample.zero Sample.localDateISO 0%nat).1,
      amount <$> head (generateData Sample.zero Sample.localDateISO 0%nat).1)
     = (Some 18, Some "0.00").
Proof. split; vm_compute; reflexivity. Qed.

(** ** The state updaters *)

Lemma Math_max_is_max (x : Z) (xs : list Z) : is_max (Math_max x xs) (x :: xs).
Proof.
  unfold Math_max, is_max. revert x.
  induction xs as [| y ys IH]; intros x; simpl.
  - split; [left |]. by intros z ->%list_elem_of_singleton.
  - destruct (IH (Z.max x y)) as [Hin Hle]. split.
    + apply elem_of_cons in Hin as [-> | Hin].
      * destruct (Z.max_spec x y) as [[_ ->] | [_ ->]]; [right; left | left].
      * by do 2 right.
    + intros z [-> | [-> | Hz]%elem_of_cons]%elem_of_cons.
      * specialize (Hle (Z.max x y) ltac:(left)). lia.
      * specialize (Hle (Z.max x y) ltac:(left)). lia.
      * apply Hle. by right.
Qed.

Lemma safe_ids_elem (rows : list Row) (r : Row) :
  safe_ids rows -> r ∈ rows -> - (2 ^ 53 - 1) <= id r <= 2 ^ 53 - 1.
Proof.
  intros Hs Hr. apply isSafeInteger_spec.
  unfold safe_ids in Hs. rewrite Forall_forall in Hs. by apply Hs.
Qed.

Lemma nextId_empty : nextId [] = 1.
Proof. reflexivity. Qed.

Lemma nextId_max (prev : list Row) :
  safe_ids prev -> prev <> [] ->
  exists m, is_max m (id <$> prev) /\ nextId prev = m + 1.
Proof.
  intros Hs Hne. unfold nextId.
  destruct prev as [| r rest]; [done |]. cbn [fmap list_fmap].
  pose proof (Math_max_is_max (id r) (id <$> rest)) as Hmax.
  exists (Math_max (id r) (id <$> rest)). split; [exact Hmax |].
  destruct Hmax as [Hin _].
  change (id r :: (id <$> rest)) with (id <$> r :: rest) in Hin.
  apply list_elem_of_fmap in Hin as (r' & -> & Hr').
  pose proof (safe_ids_elem _ _ Hs Hr').
  apply add_exact. lia.
Qed.

(** Past the safe integers the sum is rounded: on an id of [2 ^ 53], which
    no run of fewer than [2 ^ 53 - 100] additions reaches, [+ 1] returns
    the id itself. *)
Example nextId_past_safe (r : Row) :
  id r = 2 ^ 53 -> nextId [r] = 2 ^ 53.
Proof. intros Hr. unfold nextId. cbn [fmap list_fmap Math_max foldl]. by rewrite Hr. Qed.

(** The id [onAddRow] chooses is above every id of the sequence. *)
Lemma nextId_fresh (prev : list Row) (r : Row) :
  safe_ids prev -> r ∈ prev -> id r < nextId prev.
Proof.
  intros Hs Hr.
  destruct (nextId_max prev Hs) as (m & [_ Hle] & ->).
  { intros ->. by apply elem_of_nil in Hr. }
  specialize (Hle (id r) ltac:(by apply list_elem_of_fmap_2)). lia.
Qed.

Lemma toggleActive_ids (target : string) (prev : list Row) :
  id <$> toggleActive target prev = id <$> prev.
Proof.
  unfold toggleActive. rewrite <- list_fmap_compose.
  apply list_fmap_ext. intros k r _. simpl. by case_decide.
Qed.

Lemma deleteRow_sublist (target : string) (prev : list Row) :
  sublist (deleteRow target prev) prev.
Proof. apply sublist_filter. Qed.

Lemma deleteRow_unique (target : string) (l1 l2 : list Row) (r : Row) :
  NoDup (id <$> l1 ++ r :: l2) -> matches target r ->
  deleteRow target (l1 ++ r :: l2) = l1 ++ l2.
Proof.
  intros Hnd Hm. unfold deleteRow, matches in *.
  rewrite fmap_app, fmap_cons in Hnd.
  apply NoDup_app in Hnd as (_ & H1 & [H2 _]%NoDup_cons).
  assert (Hkeep : forall l : list Row, id r ∉ id <$> l ->
            filter (fun r' => Num.toString (id r') <> target) l = l).
  { intros l Hl. induction l as [| x l IH]; [done |].
    rewrite fmap_cons in Hl. apply not_elem_of_cons in Hl as [Hx Hl].
    rewrite filter_cons_True; [by rewrite IH |].
    intros E. apply Hx. apply toString_inj. congruence. }
  rewrite filter_app, filter_cons_False by (intros E; by apply E).
  rewrite !Hkeep; [done | done |].
  intros Hin. by apply (H1 (id r)); [| left].
Qed.

Lemma click_action (action target : string) :
  dataset {| dataset := Some {[ "action" := action; "id" := target ]} |}
    ≫= (.!! "action") = Some action.
Proof. simpl. apply lookup_insert_eq. Qed.

Lemma click_id (action target : string) :
  dataset {| dataset := Some {[ "action" := action; "id" := target ]} |}
    ≫= (.!! "id") = Some target.
Proof. simpl. rewrite lookup_insert_ne by done. apply lookup_singleton_eq. Qed.

(** A click on "Excluir" deletes once the user confirms. *)
Lemma onCellClicked_del (confirm : string -> bool) (tid : string) (prev : list Row) :
  tid <> "" ->
  onCellClicked confirm (click "del" tid) prev
  = if confirm ("Excluir linha id=" +:+ tid +:+ "?")
    then deleteRow tid prev else prev.
Proof.
  intros Hne. unfold onCellClicked, click. cbn [event target].
  rewrite click_action, click_id. cbn [falsy default].
  rewrite (bool_decide_eq_false_2 (tid = "")) by done.
  rewrite (bool_decide_eq_false_2 ("del" = "")) by done. cbn [orb].
  rewrite (bool_decide_eq_true_2 ("del" = "del")) by done.
  rewrite (bool_decide_eq_false_2 ("del" = "edit")) by done. reflexivity.
Qed.

(** A click on "Editar" toggles. *)
Lemma onCellClicked_edit (confirm : string -> bool) (tid : string) (prev : list Row) :
  tid <> "" ->
  onCellClicked confirm (click "edit" tid) prev = toggleActive tid prev.
Proof.
  intros Hne. unfold onCellClicked, click. cbn [event target].
  rewrite click_action, click_id. cbn [falsy default].
  rewrite (bool_decide_eq_false_2 (tid = "")) by done.
  rewrite (bool_decide_eq_false_2 ("edit" = "")) by done. cbn [orb].
  rewrite (bool_decide_eq_false_2 ("edit" = "del")) by done.
  rewrite (bool_decide_eq_true_2 ("edit" = "edit")) by done. reflexivity.
Qed.

(** Whatever the event, the handler leaves the rows alone, deletes or
    toggles. *)
Lemma onCellClicked_cases (confirm : string -> bool) (ev : CellClickedEvent)
    (prev : list Row) :
  onCellClicked confirm ev prev = prev
  \/ (exists t, onCellClicked confirm ev prev = deleteRow t prev)
  \/ (exists t, onCellClicked confirm ev prev = toggleActive t prev).
Proof.
  unfold onCellClicked.
  destruct (event ev) as [e |]; [| by left].
  destruct (target e) as [t |]; [| by left].
  destruct (falsy _ || falsy _); [by left |].
  set (a := default "" _). set (i := default "" _).
  destruct (bool_decide_reflect (a = "del")) as [-> | Hdel].
  - rewrite (bool_decide_eq_false_2 ("del" = "edit")) by done.
    destruct (confirm _); [right; left; by exists i | by left].
  - destruct (bool_decide (a = "edit")); [right; right; by exists i | by left].
Qed.

Lemma onAddRow_unfold (random : nat -> unit_double) (today : string)
    (prev : list Row) (n : nat) :
  onAddRow random today prev n
  = ({| id := nextId prev;
        name := "Cliente " +:+ Num.toString (nextId prev);
        age := genAge random n;
        city := index newRowCities (Num.rem (nextId prev) 4);
        product := index newRowProducts (Num.rem (nextId prev) 3);
        amount := genAmount random (S n);
        active := true;
        joined := today |} :: prev, S (S n)).
Proof. reflexivity. Qed.

(** C1: the add-row operation puts one new record at the head of the
    sequence and keeps the previous records, in order, after it, so the
    length grows by 1; the id of the new record is 1 on the empty sequence
    and the greatest previous id plus 1 otherwise.  The ids are safe
    integers, on which [+ 1] is exact. *)
Theorem onAddRow_prepends (random : nat -> unit_double) (today : string)
    (prev : list Row) (n : nat) :
  safe_ids prev ->
  exists newRow : Row,
    (onAddRow random today prev n).1 = newRow :: prev
    /\ length (onAddRow random today prev n).1 = S (length prev)
    /\ (prev = [] -> id newRow = 0 + 1)
    /\ (prev <> [] -> exists m, is_max m (id <$> prev) /\ id newRow = m + 1).
Proof.
  intros Hs. rewrite onAddRow_unfold. eexists. cbn [fst id].
  split; [reflexivity |]. split; [reflexivity |]. split.
  - by intros ->.
  - by apply nextId_max.
Qed.

(** C2: the delete operation, which compares ids as strings, keeps exactly
    the records whose id does not match the target, in their order, and
    removes the others; when no record matches, the sequence is returned
    unchanged; when the matching record is the only one with its id, as
    when ids are pairwise distinct, it is the one record removed and the
    length decreases by 1. *)
Theorem deleteRow_removes_matching (target : string) (prev : list Row) :
  let rows := deleteRow target prev in
  (forall r, r ∈ rows <-> r ∈ prev /\ ~ matches target r)
  /\ sublist rows prev
  /\ (length rows + length (filter (matches target) prev) = length prev)%nat
  /\ (NoDup (id <$> prev) ->
      forall l1 r l2, prev = l1 ++ r :: l2 -> matches target r ->
        rows = l1 ++ l2)
  /\ (NoDup (id <$> prev) ->
      (exists r, r ∈ prev /\ matches target r) ->
      S (length rows) = length prev)
  /\ ((forall r, r ∈ prev -> ~ matches target r) -> rows = prev)
  /\ (forall k : Z, deleteRow (Num.toString k) prev = filter (fun r => id r <> k) prev)
  /\ (forall confirm : string -> bool, target <> "" ->
        onCellClicked confirm (click "del" target) prev
        = if confirm ("Excluir linha id=" +:+ target +:+ "?") then rows else prev).
Proof.
  cbv zeta. split; [| split; [| split; [| split; [| split; [| split; [| split]]]]]].
  - intros r. unfold deleteRow, matches. rewrite list_elem_of_filter. tauto.
  - apply deleteRow_sublist.
  - unfold deleteRow, matches. induction prev as [| r l IH]; [done |].
    destruct (decide (Num.toString (id r) = target)) as [E | E].
    + rewrite filter_cons_False by tauto. rewrite filter_cons_True by done.
      simpl. lia.
    + rewrite filter_cons_True by done. rewrite filter_cons_False by done.
      simpl. lia.
  - intros Hnd l1 r l2 -> Hm. by apply deleteRow_unique.
  - intros Hnd (r & (l1 & l2 & ->)%list_elem_of_split & Hm).
    rewrite deleteRow_unique by done. rewrite !length_app. simpl. lia.
  - intros Hno. unfold deleteRow. induction prev as [| r l IH]; [done |].
    rewrite filter_cons_True by (apply Hno; left).
    f_equal. apply IH. intros r' Hr'. apply Hno. by right.
  - intros k. unfold deleteRow. apply list_filter_iff. intros r.
    split; [congruence |]. intros Hk E. by apply Hk, toString_inj.
  - intros confirm Hne. by apply onCellClicked_del.
Qed.

(** C3: the toggle operation returns a sequence of the same length in
    which, position by position, a record whose id matches the target has
    its active field negated and its other fields unchanged, and a record
    whose id does not match is unchanged. *)
Theorem toggleActive_flips_target (target : string) (prev : list Row) :
  let rows := toggleActive target prev in
  length rows = length prev
  /\ (forall (k : nat) (r : Row), prev !! k = Some r ->
       exists r' : Row,
         rows !! k = Some r'
         /\ id r' = id r /\ name r' = name r /\ age r' = age r
         /\ city r' = city r /\ product r' = product r
         /\ amount r' = amount r /\ joined r' = joined r
         /\ (matches target r -> active r' = negb (active r))
         /\ (~ matches target r -> r' = r))
  /\ (forall confirm : string -> bool, target <> "" ->
        onCellClicked confirm (click "edit" target) prev = rows).
Proof.
  cbv zeta. split; [| split].
  - unfold toggleActive. apply length_fmap.
  - intros k r Hr. unfold toggleActive, matches. rewrite list_lookup_fmap, Hr.
    simpl. eexists. split; [reflexivity |].
    case_decide; simpl; repeat split; try done.
  - intros confirm Hne. by apply onCellClicked_edit.
Qed.

Lemma nextId_positive (prev : list Row) :
  safe_ids prev -> Forall (fun r => 0 <= id r) prev -> 1 <= nextId prev.
Proof.
  intros Hs Hpos. destruct prev as [| r rest]; [by rewrite nextId_empty |].
  pose proof (nextId_fresh (r :: rest) r Hs ltac:(left)) as Hlt.
  apply Forall_cons in Hpos as [Hr _]. lia.
Qed.

Lemma index_mod {A : Type} (a : list A) (i : Z) :
  0 <= i -> a <> [] ->
  exists x, a !! Z.to_nat (i mod Z.of_nat (length a)) = Some x
            /\ index a (Num.rem i (Z.of_nat (length a))) = Some x.
Proof.
  intros Hi Ha. unfold index, Num.rem.
  assert (Hl : 0 < Z.of_nat (length a)) by (destruct a; simpl; [done | lia]).
  rewrite Z.rem_mod_nonneg by lia.
  pose proof (Z.mod_pos_bound i (Z.of_nat (length a)) Hl) as Hb.
  destruct (Z.leb_spec 0 (i mod Z.of_nat (length a))); [| lia].
  destruct (lookup_lt_is_Some_2 a (Z.to_nat (i mod Z.of_nat (length a))))
    as [x Hx]; [lia |].
  by exists x.
Qed.

(** C10: a record created by the add-row operation has active set to true
    whatever its id, also when the id is divisible by 3; its city is the
    entry of the 4 city names at index id mod 4 and its product the entry
    of the 3 product names at index id mod 3, the ids of the sequence
    being non-negative safe integers. *)
Theorem onAddRow_new_record (random : nat -> unit_double) (today : string)
    (prev : list Row) (n : nat) (newRow : Row) :
  head (onAddRow random today prev n).1 = Some newRow ->
  active newRow = true
  /\ length newRowCities = 4%nat /\ length newRowProducts = 3%nat
  /\ city newRow = index newRowCities (Num.rem (id newRow) 4)
  /\ product newRow = index newRowProducts (Num.rem (id newRow) 3)
  /\ (safe_ids prev -> Forall (fun r => 0 <= id r) prev ->
      (exists c, newRowCities !! Z.to_nat (id newRow mod 4) = Some c
                 /\ city newRow = Some c)
      /\ (exists p, newRowProducts !! Z.to_nat (id newRow mod 3) = Some p
                    /\ product newRow = Some p))
  /\ (forall r0 : Row, id r0 = 2 ->
      exists r, head (onAddRow random today [r0] n).1 = Some r
                /\ (3 | id r) /\ active r = true).
Proof.
  rewrite onAddRow_unfold. cbn [fst head]. intros [= <-]. cbn [id active city product].
  split; [reflexivity |]. split; [reflexivity |]. split; [reflexivity |].
  split; [reflexivity |]. split; [reflexivity |]. split.
  - intros Hs Hpos. pose proof (nextId_positive prev Hs Hpos) as Hn.
    split.
    + apply (index_mod newRowCities (nextId prev)); [lia | done].
    + apply (index_mod newRowProducts (nextId prev)); [lia | done].
  - intros r0 Hr0. rewrite onAddRow_unfold. cbn [fst head]. eexists.
    split; [reflexivity |]. cbn [id active]. split; [| reflexivity].
    unfold nextId. cbn [fmap list_fmap Math_max foldl]. rewrite Hr0.
    exists 1. reflexivity.
Qed.

Lemma generateData_NoDup (random : nat -> unit_double)
    (localDateISO : Z -> Z -> Z -> string) (n : nat) :
  NoDup (id <$> (generateData random localDateISO n).1).
Proof.
  rewrite generateData_closed_form. cbn [fst].
  rewrite genRows_ids. apply NoDup_seqZ.
Qed.

Lemma nextId_not_elem (prev : list Row) :
  safe_ids prev -> nextId prev ∉ id <$> prev.
Proof.
  intros Hs (r & E & Hr)%list_elem_of_fmap.
  pose proof (nextId_fresh prev r Hs Hr). lia.
Qed.

Lemma onAddRow_NoDup (random : nat -> unit_double) (today : string)
    (prev : list Row) (n : nat) :
  safe_ids prev -> NoDup (id <$> prev) ->
  NoDup (id <$> (onAddRow random today prev n).1).
Proof.
  intros Hs Hnd. rewrite onAddRow_unfold. cbn [fst]. rewrite fmap_cons. cbn [id].
  apply NoDup_cons. split; [by apply nextId_not_elem | done].
Qed.

Lemma deleteRow_NoDup (target : string) (prev : list Row) :
  NoDup (id <$> prev) -> NoDup (id <$> deleteRow target prev).
Proof.
  intros Hnd. apply (sublist_NoDup _ (id <$> prev)); [exact Hnd |].
  apply fmap_sublist, deleteRow_sublist.
Qed.

Lemma toggleActive_NoDup (target : string) (prev : list Row) :
  NoDup (id <$> prev) -> NoDup (id <$> toggleActive target prev).
Proof. intros Hnd. by rewrite toggleActive_ids. Qed.

Lemma onCellClicked_NoDup (confirm : string -> bool) (ev : CellClickedEvent)
    (prev : list Row) :
  NoDup (id <$> prev) -> NoDup (id <$> onCellClicked confirm ev prev).
Proof.
  intros Hnd.
  destruct (onCellClicked_cases confirm ev prev) as [-> | [[t ->] | [t ->]]];
    [done | by apply deleteRow_NoDup | by apply toggleActive_NoDup].
Qed.

Lemma onResetData_NoDup (random : nat -> unit_double)
    (localDateISO : Z -> Z -> Z -> string) (confirm : string -> bool)
    (prev : list Row) (n : nat) :
  NoDup (id <$> prev) ->
  NoDup (id <$> (onResetData random localDateISO confirm prev n).1).
Proof.
  intros Hnd. unfold onResetData.
  destruct (negb _); [done | apply generateData_NoDup].
Qed.

(** C8: the ids of the generated sequence are pairwise distinct, and each
    of the add-row, delete, toggle and reset operations takes a sequence
    with pairwise distinct ids to one with pairwise distinct ids; the id
    add-row chooses is not an id of the sequence.  For add-row the ids are
    safe integers. *)
Theorem unique_ids_invariant :
  (forall random localDateISO n,
     NoDup (id <$> (generateData random localDateISO n).1))
  /\ (forall random today prev n,
        safe_ids prev -> NoDup (id <$> prev) ->
        (nextId prev ∉ id <$> prev)
        /\ NoDup (id <$> (onAddRow random today prev n).1))
  /\ (forall target prev,
        NoDup (id <$> prev) -> NoDup (id <$> deleteRow target prev))
  /\ (forall target prev,
        NoDup (id <$> prev) -> NoDup (id <$> toggleActive target prev))
  /\ (forall confirm ev prev,
        NoDup (id <$> prev) -> NoDup (id <$> onCellClicked confirm ev prev))
  /\ (forall random localDateISO confirm prev n,
        NoDup (id <$> prev) ->
        NoDup (id <$> (onResetData random localDateISO confirm prev n).1)).
Proof.
  split; [exact generateData_NoDup |].
  split; [| split; [exact deleteRow_NoDup | split; [exact toggleActive_NoDup |]]].
  - intros random today prev n Hs Hnd.
    split; [by apply nextId_not_elem | by apply onAddRow_NoDup].
  - split; [exact onCellClicked_NoDup | exact onResetData_NoDup].
Qed.

(** *** Runs of the component *)

Lemma ids_upto_safe (k : nat) (rows : list Row) :
  Z.of_nat k <= 2 ^ 53 - 101 -> ids_upto k rows -> safe_ids rows.
Proof.
  unfold ids_upto, safe_ids. rewrite Forall_fmap. intros Hk Hup.
  eapply Forall_impl; [exact Hup |].
  intros r Hr. simpl in Hr. apply isSafeInteger_spec. lia.
Qed.

Lemma ids_upto_nonneg (k : nat) (rows : list Row) :
  ids_upto k rows -> Forall (fun r => 0 <= id r) rows.
Proof.
  unfold ids_upto. rewrite Forall_fmap. intros Hup.
  eapply Forall_impl; [exact Hup |]. intros r Hr. simpl in Hr. lia.
Qed.

Lemma ids_upto_mono (k k' : nat) (rows : list Row) :
  (k <= k')%nat -> ids_upto k rows -> ids_upto k' rows.
Proof.
  unfold ids_upto. intros Hk Hup.
  eapply Forall_impl; [exact Hup |]. intros i Hi. simpl in Hi. lia.
Qed.

Lemma generateData_ids_upto (random : nat -> unit_double)
    (localDateISO : Z -> Z -> Z -> string) (n : nat) :
  ids_upto 0 (generateData random localDateISO n).1.
Proof.
  unfold ids_upto. rewrite generateData_closed_form. cbn [fst].
  rewrite genRows_ids. apply Forall_forall. intros i Hi%elem_of_seqZ. lia.
Qed.

Lemma nextId_upto (k : nat) (prev : list Row) :
  Z.of_nat k <= 2 ^ 53 - 101 -> ids_upto k prev ->
  1 <= nextId prev <= 100 + Z.of_nat (S k).
Proof.
  intros Hk Hup. pose proof (ids_upto_safe k prev Hk Hup) as Hs.
  split; [apply nextId_positive; [done | by eapply ids_upto_nonneg] |].
  destruct prev as [| r rest]; [rewrite nextId_empty; lia |].
  destruct (nextId_max (r :: rest) Hs ltac:(done)) as (m & [Hin _] & ->).
  unfold ids_upto in Hup. rewrite Forall_forall in Hup.
  specialize (Hup m Hin). lia.
Qed.

(** One action keeps the ids pairwise distinct and raises them by at most
    one. *)
Lemma step_invariant (random : nat -> unit_double)
    (localDateISO : Z -> Z -> Z -> string) (a : action) (rows : list Row)
    (k n : nat) :
  Z.of_nat k <= 2 ^ 53 - 101 ->
  NoDup (id <$> rows) -> ids_upto k rows ->
  NoDup (id <$> (step random localDateISO a rows n).1)
  /\ ids_upto (S k) (step random localDateISO a rows n).1.
Proof.
  intros Hk Hnd Hup. pose proof (ids_upto_safe k rows Hk Hup) as Hs.
  destruct a as [today | confirm ev | confirm]; cbn [step].
  - split; [by apply onAddRow_NoDup |].
    rewrite onAddRow_unfold. cbn [fst]. unfold ids_upto. rewrite fmap_cons.
    cbn [id]. apply Forall_cons. split; [by apply nextId_upto |].
    apply (ids_upto_mono k); [lia | done].
  - unfold mret, Rand_ret. cbn [fst].
    split; [by apply onCellClicked_NoDup |].
    apply (ids_upto_mono k); [lia |].
    destruct (onCellClicked_cases confirm ev rows) as [-> | [[t ->] | [t ->]]].
    + done.
    + unfold ids_upto in *. rewrite Forall_forall in *. intros i Hi.
      apply Hup. eapply elem_of_sublist; [exact Hi |].
      apply fmap_sublist, deleteRow_sublist.
    + unfold ids_upto. by rewrite toggleActive_ids.
  - split; [by apply onResetData_NoDup |].
    unfold onResetData. destruct (negb _).
    + apply (ids_upto_mono k); [lia | done].
    + apply (ids_upto_mono 0); [lia |]. apply generateData_ids_upto.
Qed.

Lemma run_invariant (random : nat -> unit_double)
    (localDateISO : Z -> Z -> Z -> string) (acts : list action) (rows : list Row)
    (k n : nat) :
  Z.of_nat (k + length acts) <= 2 ^ 53 - 101 ->
  NoDup (id <$> rows) -> ids_upto k rows ->
  NoDup (id <$> (run random localDateISO acts rows n).1)
  /\ ids_upto (k + length acts) (run random localDateISO acts rows n).1.
Proof.
  revert rows k n. induction acts as [| a rest IH]; intros rows k n Hk Hnd Hup.
  - cbn [run length]. unfold mret, Rand_ret. cbn [fst].
    by rewrite Nat.add_0_r.
  - cbn [run length] in *. unfold mbind, Rand_bind.
    destruct (step_invariant random localDateISO a rows k n ltac:(lia) Hnd Hup)
      as [Hnd' Hup'].
    destruct (step random localDateISO a rows n) as [rows' n']. cbn [fst] in *.
    replace (k + S (length rest))%nat with (S k + length rest)%nat by lia.
    apply IH; [lia | done | done].
Qed.

(** Through any run of the component of at most [2 ^ 53 - 101] actions the
    ids of the rows stay pairwise distinct positive safe integers. *)
Theorem rowData_unique_ids (random : nat -> unit_double)
    (localDateISO : Z -> Z -> Z -> string) (acts : list action) (n : nat) :
  Z.of_nat (length acts) <= 2 ^ 53 - 101 ->
  NoDup (id <$> (rowData random localDateISO acts n).1)
  /\ ids_upto (length acts) (rowData random localDateISO acts n).1.
Proof.
  intros Hk. unfold rowData, mbind, Rand_bind.
  pose proof (generateData_NoDup random localDateISO n) as Hnd.
  pose proof (generateData_ids_upto random localDateISO n) as Hup.
  destruct (generateData random localDateISO n) as [rows n']. cbn [fst] in *.
  apply (run_invariant random localDateISO acts rows 0 n'); done.
Qed.

(** In such a run, deleting the id of a record of the sequence removes
    that record and no other. *)
Corollary rowData_delete (random : nat -> unit_double)
    (localDateISO : Z -> Z -> Z -> string) (acts : list action) (n : nat)
    (r : Row) :
  Z.of_nat (length acts) <= 2 ^ 53 - 101 ->
  r ∈ (rowData random localDateISO acts n).1 ->
  exists l1 l2,
    (rowData random localDateISO acts n).1 = l1 ++ r :: l2
    /\ deleteRow (Num.toString (id r)) (rowData random localDateISO acts n).1
       = l1 ++ l2.
Proof.
  intros Hk Hr.
  destruct (rowData_unique_ids random localDateISO acts n Hk) as [Hnd _].
  apply list_elem_of_split in Hr as (l1 & l2 & E). rewrite E in *.
  exists l1, l2. split; [done |]. by apply deleteRow_unique.
Qed.

(** ** [formatCurrency] *)

(** C4: [formatCurrency] returns the empty string for [null] and
    [undefined]; any other input that is not numeric, its conversion to a
    number being [NaN], is returned unchanged; any other numeric input is
    returned as the currency string of its number in the pt-BR locale. *)
Theorem formatCurrency_cases (StringToNumber : string -> number)
    (toLocaleString_ptBR_BRL : number -> string) (v : value) :
  (v = VUndefined \/ v = VNull ->
   formatCurrency StringToNumber toLocaleString_ptBR_BRL v = VString "")
  /\ (v <> VUndefined -> v <> VNull ->
      isNaN (Number StringToNumber v) = true ->
      formatCurrency StringToNumber toLocaleString_ptBR_BRL v = v)
  /\ (v <> VUndefined -> v <> VNull ->
      isNaN (Number StringToNumber v) = false ->
      formatCurrency StringToNumber toLocaleString_ptBR_BRL v
      = VString (toLocaleString_ptBR_BRL (Number StringToNumber v))).
Proof.
  split; [| split].
  - by intros [-> | ->].
  - intros Hu Hn Hnan. destruct v; try done; unfold formatCurrency; by rewrite Hnan.
  - intros Hu Hn Hnan. destruct v; try done; unfold formatCurrency; by rewrite Hnan.
Qed.

(** ** [restoreColumnState] *)

Lemma alerts_perform (e : effect) (w : world) :
  alerts (perform e w)
  = alerts w ++ match e with Alert m => [m] | SetColumnState _ => [] end.
Proof.
  unfold alerts, perform. cbn [effects]. rewrite omap_app. by destruct e.
Qed.

Lemma columnStates_perform (e : effect) (w : world) :
  columnStates (perform e w)
  = columnStates w ++ match e with Alert _ => [] | SetColumnState s => [s] end.
Proof.
  unfold columnStates, perform. cbn [effects]. rewrite omap_app. by destruct e.
Qed.

(** The white space of a text is the four characters of the JSON grammar,
    and a text written over several lines is read as the value it is. *)
Lemma is_ws_spec (c : ascii) :
  JSON.is_ws c = true
  <-> c = " "%char \/ nat_of_ascii c = 9%nat \/ nat_of_ascii c = 10%nat
      \/ nat_of_ascii c = 13%nat.
Proof.
  destruct c as [[] [] [] [] [] [] [] []]; vm_compute;
    (split;
     [ intros H;
       first [ discriminate H | left; reflexivity | right; left; reflexivity
             | right; right; left; reflexivity | right; right; right; reflexivity ]
     | intros [H | [H | [H | H]]]; first [ reflexivity | discriminate H ] ]).
Qed.

Lemma parse_white_space :
  JSON.parse Sample.multiline = Some (JSON.JArray [JSON.JObject []]).
Proof. vm_compute. reflexivity. Qed.

(** C7, as stated, fails: with the text of an unfinished object stored
    under the key, [JSON.parse] throws, [restoreColumnState] ends with that
    [SyntaxError], and no alert is shown. *)
Lemma restoreColumnState_invalid_counterexample :
  localStorage Sample.brokenSaved !! "ag-grid-column-state" = Some "{"
  /\ JSON.parse "{" = None
  /\ restoreColumnState Sample.brokenSaved = Threw SyntaxError Sample.brokenSaved
  /\ alerts Sample.brokenSaved = []
  /\ ~ (exists w', restoreColumnState Sample.brokenSaved = Returned w').
Proof.
  assert (Hraw : localStorage Sample.brokenSaved !! "ag-grid-column-state"
                 = Some "{") by apply lookup_singleton_eq.
  assert (H : restoreColumnState Sample.brokenSaved
              = Threw SyntaxError Sample.brokenSaved).
  { unfold restoreColumnState. rewrite Hraw. reflexivity. }
  split; [exact Hraw |]. split; [reflexivity |]. split; [exact H |].
  split; [reflexivity |].
  intros [w' Hw']. rewrite H in Hw'. discriminate.
Qed.

(** C7, amended: with no value stored under the key, [restoreColumnState]
    shows the alert "No saved state" and sets no column state, and so it
    does with the empty string stored, which it takes for no value; with a
    stored value that is not empty and not valid JSON, it ends with the
    [SyntaxError] of [JSON.parse], having shown no alert and set no column
    state. *)
Theorem restoreColumnState_missing_or_invalid (w : world) :
  (localStorage w !! "ag-grid-column-state" = None
   \/ localStorage w !! "ag-grid-column-state" = Some "" ->
   exists w', restoreColumnState w = Returned w'
              /\ alerts w' = alerts w ++ ["No saved state"]
              /\ columnStates w' = columnStates w
              /\ localStorage w' = localStorage w)
  /\ (forall raw, localStorage w !! "ag-grid-column-state" = Some raw ->
        raw <> "" -> JSON.parse raw = None ->
        restoreColumnState w = Threw SyntaxError w).
Proof.
  split.
  - intros Hnone. unfold restoreColumnState.
    assert (Hf : falsy (localStorage w !! "ag-grid-column-state") = true)
      by (by destruct Hnone as [-> | ->]).
    rewrite Hf. eexists. split; [reflexivity |].
    rewrite alerts_perform, columnStates_perform, app_nil_r. done.
  - intros raw Hraw Hne Hbad. unfold restoreColumnState. rewrite Hraw.
    cbn [falsy]. rewrite bool_decide_eq_false_2 by done.
    change (default "" (Some raw)) with raw. by rewrite Hbad.
Qed.

(** With valid JSON saved and the grid ready, the state is handed to the
    grid and the alert says so. *)
Lemma restoreColumnState_valid (w : world) (raw : string) (state : JSON.json) :
  localStorage w !! "ag-grid-column-state" = Some raw ->
  raw <> "" -> JSON.parse raw = Some state -> gridReady w = true ->
  exists w', restoreColumnState w = Returned w'
             /\ alerts w' = alerts w ++ ["Column state restored"]
             /\ columnStates w' = columnStates w ++ [state].
Proof.
  intros Hraw Hne Hok Hready. unfold restoreColumnState. rewrite Hraw.
  cbn [falsy]. rewrite bool_decide_eq_false_2 by done.
  change (default "" (Some raw)) with raw. rewrite Hok, Hready.
  eexists. split; [reflexivity |].
  by rewrite !alerts_perform, !columnStates_perform, !app_nil_r.
Qed.

(** So a state saved over several lines is restored. *)
Lemma restoreColumnState_multiline :
  exists w', restoreColumnState Sample.multilineSaved = Returned w'
             /\ alerts w' = ["Column state restored"]
             /\ columnStates w' = [JSON.JArray [JSON.JObject []]].
Proof.
  apply (restoreColumnState_valid Sample.multilineSaved Sample.multiline).
  - apply lookup_singleton_eq.
  - discriminate.
  - exact parse_white_space.
  - reflexivity.
Qed.

(** ** [JSON.parse] always ends

    Every call of the parser either consumes a character or is made from
    one that does, so twice the length of the text, and one more, is fuel
    enough: [None] from [JSON.parse] is a [SyntaxError]. *)

Module JSONFacts.
Import JSON.

#[local] Arguments is_char : simpl never.
#[local] Arguments is_quote : simpl never.
#[local] Arguments is_ws : simpl never.
#[local] Arguments is_escape : simpl never.
#[local] Arguments is_hex : simpl never.
#[local] Arguments is_control : simpl never.
#[local] Arguments is_digit : simpl never.

Lemma good_mono {A : Type} (n m : nat) (res : result (A * list ascii)) :
  (n <= m)%nat -> good n res -> good m res.
Proof. destruct res as [[a r] | |]; simpl; [lia | done | done]. Qed.

Lemma skip_ws_length (s : list ascii) : (length (skip_ws s) <= length s)%nat.
Proof.
  induction s as [| c s IH]; simpl; [lia |].
  destruct (is_ws c); simpl; lia.
Qed.

Lemma span_digits_length (s : list ascii) :
  (length (span_digits s).2 <= length s)%nat.
Proof.
  induction s as [| c s IH]; simpl; [lia |].
  destruct (is_digit c); [| simpl; lia].
  destruct (span_digits s) as [ds r]. simpl in *. lia.
Qed.

Lemma strip_prefix_length (p s r : list ascii) :
  strip_prefix p s = Some r -> length s = (length p + length r)%nat.
Proof.
  revert s. induction p as [| c p IH]; intros s; simpl.
  - by intros [= ->].
  - destruct s as [| d s]; [done |].
    destruct (Ascii.eqb c d); [| done]. intros H%IH. simpl. lia.
Qed.

Lemma string_body_good (s acc : list ascii) :
  good (length s) (string_body s acc).
Proof.
  remember (length s) as n eqn:Hn.
  assert (Hle : (length s <= n)%nat) by lia. clear Hn.
  revert s acc Hle. induction n as [n IH] using lt_wf_ind. intros s acc Hle.
  destruct s as [| c r]; [done |]. simpl in Hle. cbn [string_body].
  destruct (is_quote c); [simpl; lia |].
  destruct (is_char c "\").
  - destruct r as [| e r1]; [done |]. simpl in Hle.
    destruct (is_escape e).
    { eapply good_mono; [| apply (IH (length r1)); lia]. lia. }
    destruct (is_char e "u"); [| done].
    destruct r1 as [| h1 [| h2 [| h3 [| h4 r2]]]]; try done. simpl in Hle.
    destruct (_ && _); [| done].
    eapply good_mono; [| apply (IH (length r2)); lia]. lia.
  - destruct (is_control c); [done |].
    eapply good_mono; [| apply (IH (length r)); lia]. lia.
Qed.

Lemma frac_part_fair (s : list ascii) : fair (length s) (frac_part s).
Proof.
  destruct s as [| c r]; simpl; [lia |].
  destruct (is_char c "."); [| simpl; lia].
  pose proof (span_digits_length r) as H.
  destruct (span_digits r) as [[| d ds] r']; simpl in *; [done | lia].
Qed.

Lemma exp_part_fair (s : list ascii) : fair (length s) (exp_part s).
Proof.
  destruct s as [| c r]; simpl; [lia |].
  destruct (_ || _); [| simpl; lia].
  destruct r as [| c' r'].
  - simpl. done.
  - destruct (_ || _).
    + pose proof (span_digits_length r') as H.
      destruct (span_digits r') as [[| d ds] r2]; simpl in *; [done | lia].
    + pose proof (span_digits_length (c' :: r')) as H.
      destruct (span_digits (c' :: r')) as [[| d ds] r2]; simpl in *; [done | lia].
Qed.

Lemma number_good (s : list ascii) : good (length s) (number s).
Proof.
  unfold number.
  assert (Hgen : forall s1 sign, (length s1 <= length s)%nat ->
            good (length s)
              (match s1 with
               | [] => SyntaxError
               | c :: r =>
                 if negb (is_digit c) then SyntaxError
                 else
                   let '(int, s2) :=
                     if is_char c "0" then ([c], r)
                     else let '(ds, r') := span_digits r in (c :: ds, r') in
                   '(frac, s3) ← frac_part s2;
                   '(exp, s4) ← exp_part s3;
                   Ok ((sign ++ int ++ frac ++ exp)%list, s4)
               end)).
  { intros s1 sign Hs1. destruct s1 as [| c r]; [done |]. simpl in Hs1.
    destruct (negb (is_digit c)); [done |].
    assert (Hs2 : forall int s2, (length s2 <= length r)%nat ->
              good (length s)
                ('(frac, s3) ← frac_part s2;
                 '(exp, s4) ← exp_part s3;
                 Ok ((sign ++ int ++ frac ++ exp)%list, s4))).
    { intros int s2 Hl. pose proof (frac_part_fair s2) as Hf.
      destruct (frac_part s2) as [[frac s3] | |]; simpl in *; try done.
      pose proof (exp_part_fair s3) as He.
      destruct (exp_part s3) as [[exp s4] | |]; simpl in *; try done. lia. }
    destruct (is_char c "0"); [by apply Hs2 |].
    pose proof (span_digits_length r) as Hsp.
    destruct (span_digits r) as [ds r']. by apply Hs2. }
  destruct s as [| c r]; [done |].
  destruct (is_char c "-").
  - apply (Hgen r [c]). simpl. lia.
  - apply (Hgen (c :: r) []). lia.
Qed.

Lemma keyword_good (k : string) (v : json) (s : list ascii) :
  k <> "" -> good (length s) (keyword k v s).
Proof.
  intros Hk. unfold keyword.
  destruct (strip_prefix _ s) as [r |] eqn:E; [| done].
  apply strip_prefix_length in E. simpl. destruct k; [done |]. simpl in E. lia.
Qed.

Lemma parser_good (fuel : nat) :
  (forall s, (2 * length s + 1 <= fuel)%nat -> good (length s) (value fuel s))
  /\ (forall s acc, (2 * length s + 2 <= fuel)%nat ->
        good (length s) (elements fuel s acc))
  /\ (forall s acc, (2 * length s + 2 <= fuel)%nat ->
        good (length s) (members fuel s acc)).
Proof.
  induction fuel as [| fuel (IHv & IHe & IHm)].
  { repeat split; intros; lia. }
  split; [| split].
  - intros s Hf. cbn [value].
    pose proof (skip_ws_length s) as Hws.
    destruct (skip_ws s) as [| c r]; [done |]. simpl in Hws.
    destruct (is_char c "{").
    { pose proof (skip_ws_length r) as Hws'.
      destruct (skip_ws r) as [| c' r']; [done |]. simpl in Hws'.
      destruct (is_char c' "}"); [simpl; lia |].
      eapply good_mono; [| apply IHm]; lia. }
    destruct (is_char c "[").
    { pose proof (skip_ws_length r) as Hws'.
      destruct (skip_ws r) as [| c' r']; [done |]. simpl in Hws'.
      destruct (is_char c' "]"); [simpl; lia |].
      eapply good_mono; [| apply IHe]; lia. }
    destruct (is_quote c).
    { pose proof (string_body_good r []) as Hb.
      destruct (string_body r []) as [[chars r'] | |]; simpl in *; try done. lia. }
    destruct (is_char c "t").
    { eapply good_mono; [| by apply keyword_good]. simpl. lia. }
    destruct (is_char c "f").
    { eapply good_mono; [| by apply keyword_good]. simpl. lia. }
    destruct (is_char c "n").
    { eapply good_mono; [| by apply keyword_good]. simpl. lia. }
    pose proof (number_good (c :: r)) as Hn.
    destruct (number (c :: r)) as [[literal r'] | |]; simpl in *; try done. lia.
  - intros s acc Hf. cbn [elements].
    pose proof (IHv s ltac:(lia)) as Hv.
    destruct (value fuel s) as [[v r] | |]; simpl in *; try done.
    pose proof (skip_ws_length r) as Hws.
    destruct (skip_ws r) as [| c r']; [done |]. simpl in Hws.
    destruct (is_char c ",").
    { eapply good_mono; [| apply IHe]; lia. }
    destruct (is_char c "]"); [simpl; lia | done].
  - intros s acc Hf. cbn [members].
    pose proof (skip_ws_length s) as Hws.
    destruct (skip_ws s) as [| q r]; [done |]. simpl in Hws.
    destruct (is_quote q); [| done].
    pose proof (string_body_good r []) as Hb.
    destruct (string_body r []) as [[key r1] | |]; simpl in *; try done.
    pose proof (skip_ws_length r1) as Hws1.
    destruct (skip_ws r1) as [| c r2]; [done |]. simpl in Hws1.
    destruct (is_char c ":"); [| done].
    pose proof (IHv r2 ltac:(lia)) as Hv.
    destruct (value fuel r2) as [[v r3] | |]; simpl in *; try done.
    pose proof (skip_ws_length r3) as Hws3.
    destruct (skip_ws r3) as [| c' r4]; [done |]. simpl in Hws3.
    destruct (is_char c' ",").
    { eapply good_mono; [| apply IHm]; lia. }
    destruct (is_char c' "}"); [simpl; lia | done].
Qed.

(** The fuel [JSON.parse] gives is enough. *)
Lemma parse_with_fuel_enough (text : string) :
  parse_with (fuel_for text) text <> OutOfFuel.
Proof.
  unfold parse_with, fuel_for.
  destruct (parser_good (2 * String.length text + 1)) as (Hv & _ & _).
  specialize (Hv (list_ascii_of_string text)).
  rewrite <- chars_length in Hv. specialize (Hv ltac:(lia)).
  destruct (value _ _) as [[v r] | |]; simpl in *; try done.
  by destruct (skip_ws r).
Qed.

(** [JSON.parse] returns [None] exactly on a syntax error. *)
Lemma parse_None (text : string) :
  parse text = None <-> parse_with (fuel_for text) text = SyntaxError.
Proof.
  unfold parse. pose proof (parse_with_fuel_enough text) as H.
  destruct (parse_with _ _); split; done.
Qed.

End JSONFacts.

(** * The statements at sample inputs *)

Lemma Sample_rows_safe : safe_ids Sample.rows.
Proof. repeat constructor. Defined.

Lemma Sample_rows_NoDup : NoDup (id <$> Sample.rows).
Proof. compute_done. Defined.

Lemma Sample_rows_nonneg : Forall (fun r => 0 <= id r) Sample.rows.
Proof. repeat constructor; simpl; lia. Defined.

(** C1 on the sample rows, whose ids are 2 and 1. *)
Lemma onAddRow_prepends_witness :
  safe_ids Sample.rows
  /\ exists newRow : Row,
       (onAddRow Sample.random "2024-05-01" Sample.rows 0%nat).1 = newRow :: Sample.rows
       /\ length (onAddRow Sample.random "2024-05-01" Sample.rows 0%nat).1
          = S (length Sample.rows)
       /\ (Sample.rows = [] -> id newRow = 0 + 1)
       /\ (Sample.rows <> [] ->
           exists m, is_max m (id <$> Sample.rows) /\ id newRow = m + 1).
Proof.
  exact (conj Sample_rows_safe
           (onAddRow_prepends Sample.random "2024-05-01" Sample.rows 0%nat
              Sample_rows_safe)).
Defined.

(** C2 on the sample rows: deleting id 1 leaves the record with id 2. *)
Lemma deleteRow_removes_matching_witness :
  NoDup (id <$> Sample.rows)
  /\ deleteRow "1" Sample.rows = take 1 Sample.rows
  /\ S (length (deleteRow "1" Sample.rows)) = length Sample.rows
  /\ deleteRow "7" Sample.rows = Sample.rows.
Proof.
  destruct (deleteRow_removes_matching "1" Sample.rows)
    as (_ & _ & _ & Hone & Hlen & _).
  destruct (deleteRow_removes_matching "7" Sample.rows)
    as (_ & _ & _ & _ & _ & Hnone & _).
  pose proof (Hone Sample_rows_NoDup (take 1 Sample.rows)
                {| id := 1; name := "Cliente 1"; age := 30;
                   city := Some "Rio de Janeiro"; product := Some "Café";
                   amount := "7.00"; active := false; joined := "2021-02-02" |}
                [] eq_refl eq_refl) as Heq.
  split; [exact Sample_rows_NoDup |]. split; [exact Heq |].
  split.
  { apply (Hlen Sample_rows_NoDup).
    exists {| id := 1; name := "Cliente 1"; age := 30;
              city := Some "Rio de Janeiro"; product := Some "Café";
              amount := "7.00"; active := false; joined := "2021-02-02" |}.
    split; [right; left | reflexivity]. }
  apply Hnone. intros r Hr E. unfold matches in E.
  apply list_elem_of_In in Hr. simpl in Hr.
  destruct Hr as [<- | [<- | []]]; discriminate E.
Defined.

(** C3 on the sample rows: toggling id 1 flips the second record. *)
Lemma toggleActive_flips_target_witness :
  exists r r' : Row,
    Sample.rows !! 1%nat = Some r
    /\ toggleActive "1" Sample.rows !! 1%nat = Some r'
    /\ matches "1" r
    /\ active r' = negb (active r).
Proof.
  destruct (toggleActive_flips_target "1" Sample.rows) as (_ & Hk & _).
  destruct (Hk 1%nat _ eq_refl) as (r' & Hr' & _ & _ & _ & _ & _ & _ & _ & Hflip & _).
  eexists _, r'. split; [reflexivity |]. split; [exact Hr' |].
  split; [reflexivity |]. exact (Hflip eq_refl).
Defined.

(** C4 at [null], at [NaN] and at [true]. *)
Lemma formatCurrency_cases_witness :
  formatCurrency Sample.StringToNumber Sample.toLocaleString_ptBR_BRL VNull
  = VString ""
  /\ formatCurrency Sample.StringToNumber Sample.toLocaleString_ptBR_BRL
       (VString "abc") = VString "abc"
  /\ formatCurrency Sample.StringToNumber Sample.toLocaleString_ptBR_BRL
       (VBool true)
     = VString (Sample.toLocaleString_ptBR_BRL (Finite false (Num.Dyadic 1 0))).
Proof.
  split; [| split].
  - destruct (formatCurrency_cases Sample.StringToNumber
                Sample.toLocaleString_ptBR_BRL VNull) as (H & _ & _).
    apply H. right. reflexivity.
  - destruct (formatCurrency_cases Sample.StringToNumber
                Sample.toLocaleString_ptBR_BRL (VString "abc")) as (_ & H & _).
    apply H; [discriminate | discriminate | reflexivity].
  - destruct (formatCurrency_cases Sample.StringToNumber
                Sample.toLocaleString_ptBR_BRL (VBool true)) as (_ & _ & H).
    apply H; [discriminate | discriminate | reflexivity].
Defined.

(** C5 at the first record of a run on the sample host. *)
Lemma generateData_records_witness :
  exists r : Row,
    (generateData Sample.random Sample.localDateISO 0%nat).1 !! 0%nat = Some r
    /\ id r = 1 /\ name r = "Cliente 1" /\ 18 <= age r <= 77
    /\ amount r = "750.00" /\ joined r = "2021-02-02".
Proof.
  destruct (generateData_records Sample.random Sample.localDateISO 0%nat)
    as (_ & Hid & _ & _ & _ & Hall).
  destruct ((generateData Sample.random Sample.localDateISO 0%nat).1 !! 0%nat)
    as [r |] eqn:Hr; [| vm_compute in Hr; discriminate Hr].
  exists r. split; [reflexivity |].
  destruct (Hall r (list_elem_of_lookup_2 _ _ _ Hr)) as (Hname & Hage & _).
  pose proof (Hid _ _ Hr) as Hid1. simpl in Hid1.
  split; [exact Hid1 |]. split; [rewrite Hname, Hid1; reflexivity |].
  split; [exact Hage |].
  vm_compute in Hr. injection Hr as <-. split; reflexivity.
Defined.

(** C7, amended, with nothing saved, with the empty string saved and with
    an unfinished object saved. *)
Lemma restoreColumnState_missing_or_invalid_witness :
  (exists w', restoreColumnState Sample.nothingSaved = Returned w'
              /\ alerts w' = ["No saved state"]
              /\ columnStates w' = [])
  /\ (exists w', restoreColumnState Sample.emptySaved = Returned w'
                 /\ alerts w' = ["No saved state"]
                 /\ columnStates w' = [])
  /\ restoreColumnState Sample.brokenSaved = Threw SyntaxError Sample.brokenSaved.
Proof.
  split; [| split].
  - destruct (restoreColumnState_missing_or_invalid Sample.nothingSaved)
      as [Hmissing _].
    destruct (Hmissing (or_introl eq_refl)) as (w' & Hw' & Ha & Hc & _).
    exists w'. split; [exact Hw' |]. split; [exact Ha | exact Hc].
  - destruct (restoreColumnState_missing_or_invalid Sample.emptySaved)
      as [Hmissing _].
    assert (Hempty : localStorage Sample.emptySaved !! "ag-grid-column-state"
                     = Some "") by apply lookup_singleton_eq.
    destruct (Hmissing (or_intror Hempty)) as (w' & Hw' & Ha & Hc & _).
    exists w'. split; [exact Hw' |]. split; [exact Ha | exact Hc].
  - destruct (restoreColumnState_missing_or_invalid Sample.brokenSaved)
      as [_ Hinvalid].
    apply (Hinvalid "{").
    + apply lookup_singleton_eq.
    + discriminate.
    + reflexivity.
Defined.

(** C8 on the sample rows. *)
Lemma unique_ids_invariant_witness :
  NoDup (id <$> (onAddRow Sample.random "2024-05-01" Sample.rows 0%nat).1)
  /\ NoDup (id <$> deleteRow "1" Sample.rows)
  /\ NoDup (id <$> toggleActive "1" Sample.rows)
  /\ NoDup (id <$> (onResetData Sample.random Sample.localDateISO Sample.yes
                      Sample.rows 0%nat).1).
Proof.
  destruct unique_ids_invariant as (_ & Hadd & Hdel & Htog & _ & Hreset).
  split; [apply (Hadd _ _ _ _ Sample_rows_safe Sample_rows_NoDup) |].
  split; [apply (Hdel _ _ Sample_rows_NoDup) |].
  split; [apply (Htog _ _ Sample_rows_NoDup) |].
  apply (Hreset _ _ _ _ _ Sample_rows_NoDup).
Defined.

(** C10 on the sample rows: the new record has id 3, divisible by 3, and
    is active. *)
Lemma onAddRow_new_record_witness :
  exists newRow : Row,
    head (onAddRow Sample.random "2024-05-01" Sample.rows 0%nat).1 = Some newRow
    /\ id newRow = 3 /\ active newRow = true
    /\ city newRow = Some "Porto Alegre" /\ product newRow = Some "Vinho".
Proof.
  eexists. split; [reflexivity |].
  destruct (onAddRow_new_record Sample.random "2024-05-01" Sample.rows 0%nat _ eq_refl)
    as (Hactive & _ & _ & Hcity & Hproduct & _).
  split; [reflexivity |]. split; [exact Hactive |].
  split; [rewrite Hcity; reflexivity | rewrite Hproduct; reflexivity].
Defined.

(** * Further properties of the code *)

(** ** Clicks in the action cells *)

(** X1: the handler changes the row sequence only on a click that carries
    a non-empty [data-id] and either the action "edit" or the action "del"
    together with a confirmed dialog; on every other event, one without a
    DOM event, a target or the two attributes among them, the sequence
    stays as it is. *)
Theorem onCellClicked_guards (confirm : string -> bool) (ev : CellClickedEvent)
    (prev : list Row) :
  onCellClicked confirm ev prev <> prev ->
  exists tid : string,
    dataAttribute "id" ev = Some tid /\ tid <> ""
    /\ ((dataAttribute "action" ev = Some "edit"
         /\ onCellClicked confirm ev prev = toggleActive tid prev)
        \/ (dataAttribute "action" ev = Some "del"
            /\ confirm (deletePrompt tid) = true
            /\ onCellClicked confirm ev prev = deleteRow tid prev)).
Proof.
  unfold onCellClicked, dataAttribute, deletePrompt.
  destruct (event ev) as [e |]; [| done]. cbn [mbind option_bind].
  destruct (target e) as [t |]; [| done]. cbn [mbind option_bind].
  change (dataset t ≫= (fun d => d !! "id")) with (dataset t ≫= (.!! "id")).
  change (dataset t ≫= (fun d => d !! "action")) with (dataset t ≫= (.!! "action")).
  destruct (dataset t ≫= (.!! "action")) as [a |]; [| done].
  destruct (dataset t ≫= (.!! "id")) as [i |];
    [| by rewrite orb_true_r].
  cbn [falsy]. do 2 case_bool_decide; cbn [orb]; try done.
  change (default "" (Some a)) with a. change (default "" (Some i)) with i.
  destruct (bool_decide_reflect (a = "del")) as [-> | Hdel].
  - rewrite (bool_decide_eq_false_2 ("del" = "edit")) by done.
    destruct (confirm _) eqn:Hc; [| done].
    intros _. exists i. split; [done |]. split; [done |]. right. done.
  - destruct (bool_decide_reflect (a = "edit")) as [-> | Hedit]; [| done].
    intros _. exists i. split; [done |]. split; [done |]. left. done.
Qed.

(** X2: toggling the same id twice gives back the sequence as it was. *)
Theorem toggleActive_twice (tid : string) (prev : list Row) :
  toggleActive tid (toggleActive tid prev) = prev.
Proof.
  unfold toggleActive. rewrite <- list_fmap_compose.
  rewrite <- (list_fmap_id prev) at 2. apply list_fmap_ext.
  intros k r _. simpl. destruct (decide (Num.toString (id r) = tid)) as [E | E].
  - cbn [id]. rewrite decide_True by done. cbn. rewrite negb_involutive.
    by destruct r.
  - by rewrite decide_False.
Qed.

Lemma deleteRow_no_match (tid : string) (prev : list Row) :
  Forall (fun r => ~ matches tid r) prev -> deleteRow tid prev = prev.
Proof.
  unfold deleteRow, matches. induction 1 as [| r l Hr _ IH]; [done |].
  rewrite filter_cons_True by done. by rewrite IH.
Qed.

Lemma toggleActive_no_match (tid : string) (prev : list Row) :
  Forall (fun r => ~ matches tid r) prev -> toggleActive tid prev = prev.
Proof.
  unfold toggleActive, matches. induction 1 as [| r l Hr _ IH]; [done |].
  rewrite fmap_cons, IH. by rewrite decide_False.
Qed.

Lemma deleteRow_Forall (tid : string) (prev : list Row) :
  Forall (fun r => ~ matches tid r) (deleteRow tid prev).
Proof.
  apply Forall_forall. intros r Hr. unfold deleteRow in Hr.
  apply list_elem_of_filter in Hr as [Hr _]. exact Hr.
Qed.

(** X3: once a row is deleted, further clicks on its buttons do nothing: no
    record of the sequence matches the id any more, deleting the id again
    and toggling it leave the sequence as it is. *)
Theorem deleteRow_stale (tid : string) (prev : list Row) :
  Forall (fun r => ~ matches tid r) (deleteRow tid prev)
  /\ deleteRow tid (deleteRow tid prev) = deleteRow tid prev
  /\ toggleActive tid (deleteRow tid prev) = deleteRow tid prev.
Proof.
  pose proof (deleteRow_Forall tid prev) as H.
  split; [exact H |]. split.
  - by apply deleteRow_no_match.
  - by apply toggleActive_no_match.
Qed.

(** X4: clicks on different rows can be made in any order: two toggles
    commute, two deletions commute, and a toggle commutes with a
    deletion. *)
Theorem clicks_commute (a b : string) (prev : list Row) :
  toggleActive a (toggleActive b prev) = toggleActive b (toggleActive a prev)
  /\ deleteRow a (deleteRow b prev) = deleteRow b (deleteRow a prev)
  /\ toggleActive a (deleteRow b prev) = deleteRow b (toggleActive a prev).
Proof.
  split; [| split].
  - unfold toggleActive. rewrite <- !list_fmap_compose. apply list_fmap_ext.
    intros k r _. simpl.
    destruct (decide (Num.toString (id r) = a)) as [Ea | Ea],
             (decide (Num.toString (id r) = b)) as [Eb | Eb]; cbn [id];
      repeat (rewrite ?decide_True, ?decide_False by done); done.
  - unfold deleteRow. rewrite !list_filter_filter.
    apply list_filter_iff. intros r. tauto.
  - unfold deleteRow, toggleActive. induction prev as [| r l IH]; [done |].
    rewrite fmap_cons.
    destruct (decide (Num.toString (id r) = b)) as [Eb | Eb].
    + rewrite filter_cons_False by (intros H; by apply H).
      rewrite filter_cons_False; [exact IH |].
      intros H. apply H. by case_decide.
    + rewrite filter_cons_True by done.
      rewrite filter_cons_True; [by rewrite fmap_cons, IH |].
      by case_decide.
Qed.

(** ** Adding rows *)

(** X5: adding a row and then deleting it, the dialog confirmed, gives back
    the sequence as it was, the ids being safe integers. *)
Theorem onAddRow_then_delete (random : nat -> unit_double) (today : string)
    (confirm : string -> bool) (prev : list Row) (n : nat) :
  safe_ids prev ->
  confirm (deletePrompt (Num.toString (nextId prev))) = true ->
  onCellClicked confirm (click "del" (Num.toString (nextId prev)))
    (onAddRow random today prev n).1 = prev.
Proof.
  intros Hs Hc. rewrite onCellClicked_del by apply toString_nonempty.
  unfold deletePrompt in Hc. rewrite Hc, onAddRow_unfold. cbn [fst].
  unfold deleteRow. rewrite filter_cons_False by (intros H; by apply H).
  apply (deleteRow_no_match (Num.toString (nextId prev)) prev).
  apply Forall_forall. intros r Hr E. unfold matches in E.
  apply toString_inj in E. pose proof (nextId_fresh prev r Hs Hr). lia.
Qed.

Lemma safe_ids_deleteRow (tid : string) (prev : list Row) :
  safe_ids prev -> safe_ids (deleteRow tid prev).
Proof.
  unfold safe_ids, deleteRow. rewrite !Forall_forall.
  intros H r [_ Hr]%list_elem_of_filter. by apply H.
Qed.

(** X6: ids are assigned again after a deletion: when the record with the
    greatest id [m] is deleted and the id [m - 1] is in the sequence, the
    next row added gets the id [m] of the deleted record. *)
Theorem nextId_reuses_deleted (prev : list Row) (m : Z) :
  safe_ids prev -> is_max m (id <$> prev) -> m - 1 ∈ id <$> prev ->
  nextId (deleteRow (Num.toString m) prev) = m.
Proof.
  intros Hs [Hin Hle] Hpred.
  set (rows := deleteRow (Num.toString m) prev).
  assert (Hids : forall x, x ∈ id <$> rows <-> x ∈ id <$> prev /\ x <> m).
  { intros x. unfold rows, deleteRow. rewrite !list_elem_of_fmap. split.
    - intros (r & -> & [Hne Hr]%list_elem_of_filter).
      split; [by exists r |]. intros E. apply Hne. by rewrite E.
    - intros [(r & -> & Hr) Hne]. exists r. split; [done |].
      apply list_elem_of_filter. split; [| done].
      intros E. apply Hne. by apply toString_inj. }
  assert (Hne : rows <> []).
  { intros E. assert (H : m - 1 ∈ id <$> rows) by (apply Hids; split; [done | lia]).
    rewrite E in H. by apply elem_of_nil in H. }
  destruct (nextId_max rows (safe_ids_deleteRow _ _ Hs) Hne) as (m' & [Hin' Hle'] & ->).
  apply Hids in Hin' as [Hin' Hne'].
  specialize (Hle _ Hin').
  specialize (Hle' (m - 1) ltac:(apply Hids; split; [done | lia])). lia.
Qed.

(** X7: the record [onAddRow] creates has the name "Cliente " followed by
    its id, an age from 18 to 77, and as amount a decimal text with 2
    decimal places of at most 1000.00; its joined field is the date of the
    day. *)
Theorem onAddRow_fields (random : nat -> unit_double) (today : string)
    (prev : list Row) (n : nat) (newRow : Row) :
  head (onAddRow random today prev n).1 = Some newRow ->
  name newRow = "Cliente " +:+ Num.toString (id newRow)
  /\ 18 <= age newRow <= 77
  /\ (exists k, 0 <= k <= 100000 /\ decimal_text 2 (amount newRow) k)
  /\ joined newRow = today.
Proof.
  rewrite onAddRow_unfold. cbn [fst head]. intros [= <-].
  cbn [id name age amount joined].
  split; [reflexivity |]. split; [apply genAge_range |].
  split; [apply genAmount_text | reflexivity].
Qed.

Lemma added_ids_elem (k : nat) (x : Z) :
  x ∈ reverse (seqZ 101 (Z.of_nat k)) ++ seqZ 1 100
  <-> 1 <= x <= 100 + Z.of_nat k.
Proof.
  rewrite elem_of_app, elem_of_reverse, !elem_of_seqZ. lia.
Qed.

Lemma run_AddRow_ids (random : nat -> unit_double)
    (localDateISO : Z -> Z -> Z -> string) (todays : list string)
    (rows : list Row) (k n : nat) :
  Z.of_nat (k + length todays) <= 2 ^ 53 - 101 ->
  id <$> rows = reverse (seqZ 101 (Z.of_nat k)) ++ seqZ 1 100 ->
  id <$> (run random localDateISO (AddRow <$> todays) rows n).1
  = reverse (seqZ 101 (Z.of_nat (k + length todays))) ++ seqZ 1 100.
Proof.
  revert rows k n. induction todays as [| today rest IH]; intros rows k n Hk Hids.
  - cbn [fmap list_fmap run length]. unfold mret, Rand_ret. cbn [fst].
    by rewrite Nat.add_0_r.
  - cbn [fmap list_fmap run length step] in *. unfold mbind, Rand_bind.
    rewrite onAddRow_unfold.
    replace (k + S (length rest))%nat with (S k + length rest)%nat by lia.
    apply IH; [lia |]. rewrite fmap_cons. cbn [id].
    rewrite seqZ_S, reverse_snoc. cbn [app]. f_equal; [| exact Hids].
    assert (Hs : safe_ids rows).
    { unfold safe_ids. apply Forall_forall. intros r Hr.
      apply isSafeInteger_spec.
      assert (Hx : id r ∈ id <$> rows) by (by apply list_elem_of_fmap_2).
      rewrite Hids in Hx. apply added_ids_elem in Hx. lia. }
    assert (Hne : rows <> []).
    { intros ->. apply (f_equal length) in Hids.
      rewrite length_app, length_seqZ in Hids. simpl in Hids. lia. }
    destruct (nextId_max rows Hs Hne) as (m & [Hin Hle] & ->).
    rewrite Hids in Hin, Hle. apply added_ids_elem in Hin.
    specialize (Hle (100 + Z.of_nat k) ltac:(apply added_ids_elem; lia)). lia.
Qed.

(** X8: in a session in which rows are only added, the new rows are
    numbered on from 101: after [k] additions, [k] being at most
    [2 ^ 53 - 101], the ids of the sequence are [100 + k], ..., 101
    followed by 1, ..., 100. *)
Theorem rowData_added_ids (random : nat -> unit_double)
    (localDateISO : Z -> Z -> Z -> string) (todays : list string) (n : nat) :
  Z.of_nat (length todays) <= 2 ^ 53 - 101 ->
  id <$> (rowData random localDateISO (AddRow <$> todays) n).1
  = reverse (seqZ 101 (Z.of_nat (length todays))) ++ seqZ 1 100.
Proof.
  intros Hk. unfold rowData, mbind, Rand_bind.
  rewrite generateData_closed_form.
  apply (run_AddRow_ids random localDateISO todays _ 0); [done |].
  by rewrite genRows_ids.
Qed.

(** ** The generated rows *)

Lemma length_filter_fmap {A B : Type} (f : A -> B) (P : B -> Prop)
    `{!forall y, Decision (P y)} (l : list A) :
  length (filter (fun x => P (f x)) l) = length (filter P (f <$> l)).
Proof.
  induction l as [| x l IH]; [done |]. rewrite fmap_cons.
  destruct (decide (P (f x))) as [Hx | Hx].
  - rewrite !filter_cons_True by done. simpl. by rewrite IH.
  - by rewrite !filter_cons_False.
Qed.

Lemma genRows_fmap {B : Type} (f : Row -> B) (g : Z -> B)
    (random : nat -> unit_double) (localDateISO : Z -> Z -> Z -> string)
    (n : nat) (counter : list Z) :
  (forall k i, f (genRow random localDateISO k i) = g i) ->
  f <$> genRows random localDateISO n counter = g <$> counter.
Proof.
  intros Hfg. revert n. induction counter as [| i l IH]; intros n; [done |].
  cbn [genRows]. by rewrite !fmap_cons, Hfg, IH.
Qed.

(** X9: the dates the generator asks the host for exist in every year: for
    the record with id [i] the year is [2020 + i mod 6], from 2020 to 2025,
    the month index is [i mod 12], from 0 to 11, and the day is
    [i mod 28 + 1], from 1 to 28, so no date runs over into the next
    month. *)
Theorem generateData_joined (random : nat -> unit_double)
    (localDateISO : Z -> Z -> Z -> string) (n : nat) :
  Forall (fun r =>
            joined r = localDateISO (2020 + id r mod 6) (id r mod 12)
                                    (id r mod 28 + 1)
            /\ 2020 <= 2020 + id r mod 6 <= 2025
            /\ 0 <= id r mod 12 <= 11
            /\ 1 <= id r mod 28 + 1 <= 28)
         (generateData random localDateISO n).1.
Proof.
  rewrite generateData_closed_form. cbn [fst].
  apply Forall_forall. intros r Hr.
  apply genRows_elem in Hr as (k & i & Hi%elem_of_seqZ & ->).
  cbn [id joined genRow]. unfold Num.rem.
  rewrite !Z.rem_mod_nonneg by lia.
  pose proof (Z.mod_pos_bound i 6 ltac:(lia)).
  pose proof (Z.mod_pos_bound i 12 ltac:(lia)).
  pose proof (Z.mod_pos_bound i 28 ltac:(lia)).
  rewrite !add_exact by lia. repeat split; lia.
Qed.

(** X10: in the generated rows city and product go together: the record
    with id [i] has the city and the product at index [i mod 10] of the two
    lists of names, so only 10 of the 100 pairs of a city and a product
    occur; each city and each product is that of exactly 10 records. *)
Theorem generateData_city_product (random : nat -> unit_double)
    (localDateISO : Z -> Z -> Z -> string) (n : nat) :
  let rows := (generateData random localDateISO n).1 in
  (forall r, r ∈ rows ->
     exists k : nat,
       (k < 10)%nat /\ Z.of_nat k = id r mod 10
       /\ city r = cities !! k /\ product r = products !! k)
  /\ (forall c, c ∈ cities ->
        length (filter (fun r => city r = Some c) rows) = 10%nat)
  /\ (forall p, p ∈ products ->
        length (filter (fun r => product r = Some p) rows) = 10%nat).
Proof.
  cbv zeta. rewrite generateData_closed_form. cbn [fst].
  split; [| split].
  - intros r Hr. apply genRows_elem in Hr as (k & i & Hi%elem_of_seqZ & ->).
    cbn [id city product genRow]. unfold Num.rem, index.
    change (Z.of_nat (length cities)) with 10.
    change (Z.of_nat (length products)) with 10.
    rewrite !Z.rem_mod_nonneg by lia.
    pose proof (Z.mod_pos_bound i 10 ltac:(lia)) as Hb.
    destruct (Z.leb_spec 0 (i mod 10)); [| lia].
    exists (Z.to_nat (i mod 10)). repeat split; lia.
  - intros c Hc.
    etrans;
      [exact (length_filter_fmap city (fun x => x = Some c)
                (genRows random localDateISO n (seqZ 1 100))) |].
    rewrite (genRows_fmap city
               (fun i => index cities (Num.rem i (Z.of_nat (length cities)))))
      by reflexivity.
    apply list_elem_of_In in Hc. simpl in Hc.
    repeat (destruct Hc as [<- | Hc]; [vm_compute; reflexivity |]). done.
  - intros p Hp.
    etrans;
      [exact (length_filter_fmap product (fun x => x = Some p)
                (genRows random localDateISO n (seqZ 1 100))) |].
    rewrite (genRows_fmap product
               (fun i => index products (Num.rem i (Z.of_nat (length products)))))
      by reflexivity.
    apply list_elem_of_In in Hp. simpl in Hp.
    repeat (destruct Hp as [<- | Hp]; [vm_compute; reflexivity |]). done.
Qed.

(** X11: of the 100 generated records 33 are inactive and 67 are
    active. *)
Theorem generateData_active_count (random : nat -> unit_double)
    (localDateISO : Z -> Z -> Z -> string) (n : nat) :
  let rows := (generateData random localDateISO n).1 in
  length (filter (fun r => active r = false) rows) = 33%nat
  /\ length (filter (fun r => active r = true) rows) = 67%nat.
Proof.
  cbv zeta. rewrite generateData_closed_form. cbn [fst].
  split.
  - etrans;
      [exact (length_filter_fmap active (fun b => b = false)
                (genRows random localDateISO n (seqZ 1 100))) |].
    rewrite (genRows_fmap active (fun i => negb (Num.rem i 3 =? 0)))
      by reflexivity.
    vm_compute. reflexivity.
  - etrans;
      [exact (length_filter_fmap active (fun b => b = true)
                (genRows random localDateISO n (seqZ 1 100))) |].
    rewrite (genRows_fmap active (fun i => negb (Num.rem i 3 =? 0)))
      by reflexivity.
    vm_compute. reflexivity.
Qed.

(** ** [formatCurrency], further *)

(** X12: [formatCurrency] never returns [null] or [undefined]: its result
    is a string, or else it is the input itself, which then is neither
    [null] nor [undefined] and converts to the number [NaN]. *)
Theorem formatCurrency_result (StringToNumber : string -> number)
    (toLocaleString_ptBR_BRL : number -> string) (v : value) :
  formatCurrency StringToNumber toLocaleString_ptBR_BRL v <> VUndefined
  /\ formatCurrency StringToNumber toLocaleString_ptBR_BRL v <> VNull
  /\ ((exists s, formatCurrency StringToNumber toLocaleString_ptBR_BRL v = VString s)
      \/ (formatCurrency StringToNumber toLocaleString_ptBR_BRL v = v
          /\ v <> VUndefined /\ v <> VNull
          /\ isNaN (Number StringToNumber v) = true)).
Proof.
  assert (Hcases :
    (exists s, formatCurrency StringToNumber toLocaleString_ptBR_BRL v = VString s)
    \/ (formatCurrency StringToNumber toLocaleString_ptBR_BRL v = v
        /\ v <> VUndefined /\ v <> VNull
        /\ isNaN (Number StringToNumber v) = true)).
  { assert (Hv : v = VUndefined \/ v = VNull
                 \/ (v <> VUndefined /\ v <> VNull
                     /\ formatCurrency StringToNumber toLocaleString_ptBR_BRL v
                        = if isNaN (Number StringToNumber v) then v
                          else VString (toLocaleString_ptBR_BRL
                                          (Number StringToNumber v))))
      by (destruct v; auto).
    destruct Hv as [-> | [-> | (Hu & Hn & E)]].
    - left. by eexists.
    - left. by eexists.
    - rewrite E. destruct (isNaN (Number StringToNumber v)) eqn:Hnan.
      + right. done.
      + left. by eexists. }
  destruct Hcases as [[s Hs] | (E & Hu & Hn & Hnan)].
  - rewrite Hs. split; [done |]. split; [done |]. left. by eexists.
  - rewrite E. split; [done |]. split; [done |]. right. done.
Qed.

(** ** [restoreColumnState], further *)

(** X13: [restoreColumnState] never writes to local storage; when it
    returns it has shown exactly one alert and has set at most one column
    state, one that [JSON.parse] made of the stored text, and then the
    alert is "Column state restored"; when it throws it has shown no alert
    and set no column state. *)
Theorem restoreColumnState_frame (w : world) :
  match restoreColumnState w with
  | Returned w' =>
    localStorage w' = localStorage w
    /\ gridReady w' = gridReady w
    /\ exists message,
         alerts w' = alerts w ++ [message]
         /\ ((message = "No saved state" /\ columnStates w' = columnStates w)
             \/ (message = "Column state restored"
                 /\ exists raw state,
                      localStorage w !! "ag-grid-column-state" = Some raw
                      /\ JSON.parse raw = Some state
                      /\ columnStates w' = columnStates w ++ [state]))
  | Threw e w' => w' = w
  end.
Proof.
  unfold restoreColumnState.
  destruct (localStorage w !! "ag-grid-column-state") as [raw |] eqn:Hraw.
  - cbn [falsy]. case_bool_decide.
    + cbn [perform localStorage gridReady]. split; [done |]. split; [done |].
      eexists. rewrite alerts_perform, columnStates_perform, app_nil_r.
      split; [done |]. left. done.
    + change (default "" (Some raw)) with raw.
      destruct (JSON.parse raw) as [state |] eqn:Hp; [| done].
      destruct (gridReady w) eqn:Hready; [| done].
      cbn [perform localStorage gridReady]. split; [done |]. split; [done |].
      eexists. rewrite !alerts_perform, !columnStates_perform, !app_nil_r.
      split; [done |]. right. split; [done |]. by exists raw, state.
  - cbn [falsy perform localStorage gridReady]. split; [done |]. split; [done |].
    eexists. rewrite alerts_perform, columnStates_perform, app_nil_r.
    split; [done |]. left. done.
Qed.

(** X14: before the grid has reported readiness, [restoreColumnState]
    with valid JSON saved ends with a [TypeError], having shown no alert,
    while with nothing saved it shows its alert all the same. *)
Theorem restoreColumnState_not_ready (w : world) :
  gridReady w = false ->
  (forall raw state,
     localStorage w !! "ag-grid-column-state" = Some raw -> raw <> "" ->
     JSON.parse raw = Some state ->
     restoreColumnState w = Threw TypeError w)
  /\ (localStorage w !! "ag-grid-column-state" = None ->
      restoreColumnState w = Returned (perform (Alert "No saved state") w)).
Proof.
  intros Hready. split.
  - intros raw state Hraw Hne Hp. unfold restoreColumnState. rewrite Hraw.
    cbn [falsy]. rewrite bool_decide_eq_false_2 by done.
    change (default "" (Some raw)) with raw. by rewrite Hp, Hready.
  - intros Hnone. unfold restoreColumnState. by rewrite Hnone.
Qed.

(** ** [JSON.stringify] and [JSON.parse] *)

Module JSFacts.
Import JSON JS.

#[local] Arguments is_char : simpl never.
#[local] Arguments is_quote : simpl never.
#[local] Arguments is_ws : simpl never.
#[local] Arguments is_digit : simpl never.

(** Induction on a value, with the hypothesis for every element of an
    array and every property of an object. *)
Lemma jsvalue_nested_ind (P : jsvalue -> Prop) :
  P JSNull -> (forall b, P (JSBool b)) -> (forall z, P (JSInt z)) ->
  (forall s, P (JSString s)) ->
  (forall l, Forall P l -> P (JSArray l)) ->
  (forall l, Forall (fun kv => P (snd kv)) l -> P (JSObject l)) ->
  forall v, P v.
Proof.
  intros Hnull Hbool Hint Hstr Harr Hobj. fix IH 1.
  intros [| b | z | s | l | l].
  - exact Hnull.
  - apply Hbool.
  - apply Hint.
  - apply Hstr.
  - apply Harr. induction l as [| v l IHl]; constructor; [apply IH | exact IHl].
  - apply Hobj. induction l as [| [k v] l IHl]; constructor; [apply IH | exact IHl].
Qed.

(** *** Strings *)

Lemma string_body_escape_char (c : ascii) (tl acc : list ascii) :
  string_body (escape_char c ++ tl) acc
  = string_body tl (rev (escape_char c) ++ acc).
Proof.
  destruct c as [[] [] [] [] [] [] [] []]; reflexivity.
Qed.

Lemma string_body_escape (s acc rest : list ascii) :
  string_body (escape s ++ dquote :: rest) acc = Ok (rev acc ++ escape s, rest).
Proof.
  revert acc. induction s as [| c s IH]; intros acc.
  - cbn. by rewrite app_nil_r.
  - unfold escape in *. cbn [flat_map]. rewrite <- app_assoc.
    rewrite string_body_escape_char, IH. f_equal. f_equal.
    rewrite rev_app_distr, rev_involutive. by rewrite <- app_assoc.
Qed.

Lemma string_body_quote (s : string) (rest : list ascii) :
  exists tl, quote s ++ rest = dquote :: tl
             /\ string_body tl [] = Ok (list_ascii_of_string (escaped s), rest).
Proof.
  unfold quote, escaped. eexists. split.
  - cbn [app]. rewrite <- app_assoc. reflexivity.
  - cbn [app]. rewrite string_body_escape.
    by rewrite list_ascii_of_string_of_list_ascii.
Qed.

(** *** Numbers *)

Lemma to_uint_no_leading_zero (p : positive) (u : Decimal.uint) :
  Pos.to_uint p <> Decimal.D0 u.
Proof.
  intros E.
  pose proof (DecimalPos.Unsigned.to_of (Pos.to_uint p)) as H.
  rewrite DecimalPos.Unsigned.of_to in H. cbn [N.to_uint] in H.
  rewrite E, DecimalFacts.unorm_D0 in H.
  destruct (Decimal.uint_eq_dec (Decimal.nzhead u) Decimal.Nil) as [Hn | Hn].
  - apply DecimalFacts.unorm_0 in Hn. rewrite Hn in H.
    apply (DecimalPos.Unsigned.to_uint_nonzero p). by rewrite E, H.
  - rewrite DecimalFacts.unorm_nzhead in H by done.
    by apply (DecimalFacts.nzhead_nonzero u u).
Qed.

Lemma digit_dispatch (c : ascii) :
  is_digit c = true ->
  is_ws c = false /\ is_char c "{" = false /\ is_char c "[" = false
  /\ is_quote c = false /\ is_char c "t" = false /\ is_char c "f" = false
  /\ is_char c "n" = false /\ is_char c "-" = false /\ is_char c "." = false
  /\ is_char c "e" = false /\ is_char c "E" = false.
Proof.
  destruct c as [[] [] [] [] [] [] [] []]; intros H; try discriminate H;
    repeat split; reflexivity.
Qed.

Lemma span_digits_app (ds rest : list ascii) :
  Forall (fun c => is_digit c = true) ds ->
  match rest with [] => True | c :: _ => is_digit c = false end ->
  span_digits (ds ++ rest) = (ds, rest).
Proof.
  intros Hds Hrest. induction Hds as [| d ds Hd _ IH]; cbn.
  - destruct rest as [| c r]; [done |]. cbn. by rewrite Hrest.
  - by rewrite Hd, IH.
Qed.

Lemma delimited_facts (rest : list ascii) :
  delimited rest ->
  match rest with [] => True | c :: _ => is_digit c = false end
  /\ frac_part rest = Ok ([], rest) /\ exp_part rest = Ok ([], rest)
  /\ skip_ws rest = rest.
Proof.
  destruct rest as [| c r]; [done |]. intros [-> | [-> | ->]]; done.
Qed.

(** The digits of a positive numeral: the first is not a zero. *)
Lemma uint_chars (u : Decimal.uint) :
  u <> Decimal.Nil -> (forall u', u <> Decimal.D0 u') ->
  exists d ds,
    list_ascii_of_string (NilEmpty.string_of_uint u) = d :: ds
    /\ is_digit d = true /\ is_char d "0" = false
    /\ Forall (fun c => is_digit c = true) ds.
Proof.
  intros Hnil Hzero.
  destruct u as [| u | u | u | u | u | u | u | u | u | u];
    [done | by destruct (Hzero u) | ..];
    (eexists _, _; split; [reflexivity |]; split; [reflexivity |];
     split; [reflexivity |]; apply string_of_uint_digits).
Qed.

Lemma number_unsigned (sign : list ascii) (d : ascii) (ds rest : list ascii) :
  is_digit d = true -> (is_char d "0" = true -> ds = []) ->
  Forall (fun c => is_digit c = true) ds -> delimited rest ->
  match d :: ds ++ rest with
  | [] => SyntaxError
  | c :: r =>
    if negb (is_digit c) then SyntaxError
    else
      let '(int, s2) :=
        if is_char c "0" then ([c], r)
        else let '(ds, r') := span_digits r in (c :: ds, r') in
      '(frac, s3) ← frac_part s2;
      '(exp, s4) ← exp_part s3;
      Ok ((sign ++ int ++ frac ++ exp)%list, s4)
  end = Ok (sign ++ d :: ds, rest).
Proof.
  intros Hd Hzero Hds Hrest.
  destruct (delimited_facts rest Hrest) as (Hnd & Hfrac & Hexp & _).
  rewrite Hd. cbn [negb].
  destruct (is_char d "0") eqn:H0.
  - rewrite (Hzero eq_refl). cbn [app]. rewrite Hfrac. cbn. rewrite Hexp. cbn.
    by rewrite ?app_nil_r.
  - rewrite span_digits_app by done. rewrite Hfrac. cbn. rewrite Hexp. cbn.
    by rewrite ?app_nil_r.
Qed.

(** The decimal digits of an integer are a number literal. *)
Lemma number_toString (z : Z) (rest : list ascii) :
  delimited rest ->
  number (list_ascii_of_string (Num.toString z) ++ rest)
  = Ok (list_ascii_of_string (Num.toString z), rest).
Proof.
  intros Hrest. unfold Num.toString, number.
  destruct z as [| p | p]; cbn [Z.to_int NilZero.string_of_int].
  - change (list_ascii_of_string (NilZero.string_of_uint Decimal.zero))
      with ["0"%char]. cbn [app].
    change (is_char "0" "-") with false. cbv iota beta.
    apply (number_unsigned [] "0" [] rest); done.
  - rewrite string_of_uint_nonnil by apply DecimalPos.Unsigned.to_uint_nonnil.
    destruct (uint_chars (Pos.to_uint p)
                (DecimalPos.Unsigned.to_uint_nonnil p)
                (to_uint_no_leading_zero p)) as (d & ds & -> & Hd & H0 & Hds).
    cbn [app]. destruct (digit_dispatch d Hd) as (_ & _ & _ & _ & _ & _ & _ & Hm & _).
    rewrite Hm. apply (number_unsigned [] d ds rest); [done | | done | done].
    by rewrite H0.
  - rewrite string_of_uint_nonnil by apply DecimalPos.Unsigned.to_uint_nonnil.
    destruct (uint_chars (Pos.to_uint p)
                (DecimalPos.Unsigned.to_uint_nonnil p)
                (to_uint_no_leading_zero p)) as (d & ds & Hchars & Hd & H0 & Hds).
    cbn [list_ascii_of_string]. rewrite Hchars. cbn [app].
    change (is_char "-" "-") with true. cbv iota beta.
    apply (number_unsigned ["-"%char] d ds rest); [done | | done | done].
    by rewrite H0.
Qed.

(** *** Values *)

Lemma value_keyword_array (fuel : nat) (s : list ascii) :
  value (S fuel) ("["%char :: s)
  = match skip_ws s with
    | c' :: r' => if is_char c' "]" then Ok (JArray [], r') else elements fuel s []
    | [] => SyntaxError
    end.
Proof. reflexivity. Qed.

Lemma value_keyword_object (fuel : nat) (s : list ascii) :
  value (S fuel) ("{"%char :: s)
  = match skip_ws s with
    | c' :: r' => if is_char c' "}" then Ok (JObject [], r') else members fuel s []
    | [] => SyntaxError
    end.
Proof. reflexivity. Qed.

Lemma value_string (fuel : nat) (tl : list ascii) :
  value (S fuel) (dquote :: tl)
  = ('(chars, r') ← string_body tl [];
     Ok (JString (string_of_list_ascii chars), r')).
Proof. reflexivity. Qed.

Lemma value_number (fuel : nat) (c : ascii) (r : list ascii) :
  is_digit c = true \/ c = "-"%char ->
  value (S fuel) (c :: r)
  = ('(literal, r') ← number (c :: r);
     Ok (JNumber (string_of_list_ascii literal), r')).
Proof.
  intros [Hd | ->]; [| reflexivity].
  destruct (digit_dispatch c Hd) as (Hws & H1 & H2 & H3 & H4 & H5 & H6 & _).
  cbn [value skip_ws]. by rewrite Hws, H1, H2, H3, H4, H5, H6.
Qed.

Lemma toString_head (z : Z) :
  exists c r, list_ascii_of_string (Num.toString z) = c :: r
              /\ (is_digit c = true \/ c = "-"%char).
Proof.
  unfold Num.toString. destruct z as [| p | p]; cbn [Z.to_int NilZero.string_of_int].
  - eexists _, _. split; [reflexivity |]. by left.
  - rewrite string_of_uint_nonnil by apply DecimalPos.Unsigned.to_uint_nonnil.
    destruct (uint_chars (Pos.to_uint p)
                (DecimalPos.Unsigned.to_uint_nonnil p)
                (to_uint_no_leading_zero p)) as (d & ds & -> & Hd & _).
    eexists _, _. split; [reflexivity |]. by left.
  - eexists _, _. split; [reflexivity |]. by right.
Qed.

(** The text of a value starts with a character that is no white space
    and does not close an array or an object. *)
Lemma serialize_head (v : jsvalue) :
  exists c r, serialize v = c :: r
              /\ is_ws c = false /\ is_char c "]" = false
              /\ is_char c "}" = false.
Proof.
  destruct v as [| [] | z | s | l | l];
    try (eexists _, _; split; [reflexivity |]; done).
  destruct (toString_head z) as (c & r & Hc & [Hd | ->]);
    cbn [serialize]; rewrite Hc; eexists _, _; (split; [reflexivity |]).
  - destruct c as [[] [] [] [] [] [] [] []]; try discriminate Hd; done.
  - done.
Qed.

Lemma join_head (p : list ascii) (parts : list (list ascii)) (tl : list ascii) :
  exists r, join (p :: parts) ++ tl = p ++ r.
Proof.
  cbn [join]. destruct parts as [| q parts].
  - by exists tl.
  - eexists. by rewrite <- app_assoc.
Qed.

Lemma elements_serialize (l : list jsvalue) :
  Forall parses l -> l <> [] ->
  forall (acc : list json) (rest : list ascii) (fuel : nat),
    (sum_list (map (fun x => S (weight x)) l) <= fuel)%nat ->
    elements fuel (join (map serialize l) ++ "]"%char :: rest) acc
    = Ok (JArray (acc ++ map tree_of l), rest).
Proof.
  induction 1 as [| v l Hv Hl IH]; [done |]. intros _ acc rest fuel Hfuel.
  simpl in Hfuel.
  destruct fuel as [| fuel]; [lia |]. cbn [elements map join].
  destruct l as [| v2 l]; simpl in Hfuel.
  - cbn [map]. rewrite (Hv ("]"%char :: rest) fuel); [| by right; left | lia].
    reflexivity.
  - cbn [map] in *. rewrite <- app_assoc. cbn [app].
    rewrite (Hv (","%char :: _) fuel); [| by left | lia].
    cbn [mbind result_bind skip_ws]. change (is_ws ",") with false. cbv iota.
    change (is_char "," ",") with true. cbv iota.
    rewrite (IH ltac:(done) (acc ++ [tree_of v]) rest fuel) by (simpl; lia).
    by rewrite <- app_assoc.
Qed.

Lemma join_cons2 (p q : list ascii) (parts : list (list ascii)) :
  join (p :: q :: parts) = p ++ ","%char :: join (q :: parts).
Proof. reflexivity. Qed.

Lemma members_step (fuel : nat) (k : string) (sv tail : list ascii)
    (t : json) (c' : ascii) (r4 : list ascii) (acc : list (string * json)) :
  value fuel (sv ++ c' :: r4) = Ok (t, c' :: r4) -> is_ws c' = false ->
  members (S fuel) ((quote k ++ ":"%char :: sv) ++ c' :: r4) acc
  = if is_char c' "," then members fuel r4 (acc ++ [(escaped k, t)])
    else if is_char c' "}" then Ok (JObject (acc ++ [(escaped k, t)]), r4)
    else SyntaxError.
Proof.
  intros Hv Hws. unfold quote. cbn [app members skip_ws].
  change (is_ws dquote) with false. cbv iota.
  change (is_quote dquote) with true. cbv iota.
  rewrite <- !app_assoc. cbn [app]. rewrite string_body_escape.
  cbn [mbind result_bind rev app skip_ws].
  change (is_ws ":") with false. cbv iota.
  change (is_char ":" ":") with true. cbv iota.
  rewrite Hv. cbn [mbind result_bind skip_ws]. rewrite Hws.
  unfold escaped. reflexivity.
Qed.

Lemma members_serialize (l : list (string * jsvalue)) :
  Forall (fun kv => parses (snd kv)) l -> l <> [] ->
  forall (acc : list (string * json)) (rest : list ascii) (fuel : nat),
    (sum_list (map (fun kv => S (weight (snd kv))) l) <= fuel)%nat ->
    members fuel
      (join (map (fun kv => quote (fst kv) ++ ":"%char :: serialize (snd kv)) l)
       ++ "}"%char :: rest) acc
    = Ok (JObject (acc ++ map (fun kv => (escaped (fst kv), tree_of (snd kv))) l),
          rest).
Proof.
  induction 1 as [| [k v] l Hv Hl IH]; [done |]. intros _ acc rest fuel Hfuel.
  simpl in Hfuel. destruct fuel as [| fuel]; [lia |].
  destruct l as [| kv2 l]; simpl in Hfuel; cbn [map fst snd] in *.
  - cbn [join]. rewrite (members_step fuel k (serialize v) [] (tree_of v) "}" rest acc);
      [reflexivity | | reflexivity].
    apply Hv; [by right; right | simpl; lia].
  - rewrite join_cons2, <- (app_assoc (quote k ++ ":"%char :: serialize v)).
    cbn [app]. set (tl := join _ ++ _).
    rewrite (members_step fuel k (serialize v) [] (tree_of v) "," tl acc);
      [| apply Hv; [by left | simpl; lia] | reflexivity].
    change (is_char "," ",") with true. cbv iota. subst tl.
    rewrite (IH ltac:(done) (acc ++ [(escaped k, tree_of v)]) rest fuel)
      by (simpl; lia).
    by rewrite <- app_assoc.
Qed.

(** The parser reads the text of every value back as its syntax tree. *)
Lemma value_serialize (v : jsvalue) : parses v.
Proof.
  induction v as [| b | z | s | l IH | l IH] using jsvalue_nested_ind;
    intros rest fuel Hrest Hfuel; (destruct fuel as [| fuel]; [simpl in Hfuel; lia |]).
  - reflexivity.
  - by destruct b.
  - cbn [serialize tree_of].
    destruct (toString_head z) as (c & r & Hc & Hhead).
    rewrite Hc. cbn [app]. rewrite value_number by done.
    change (c :: r ++ rest) with ((c :: r) ++ rest). rewrite <- Hc.
    rewrite number_toString by done. cbn [mbind result_bind].
    by rewrite string_of_list_ascii_of_string.
  - cbn [serialize tree_of]. unfold quote. cbn [app]. rewrite value_string.
    rewrite <- app_assoc. cbn [app]. rewrite string_body_escape.
    reflexivity.
  - cbn [serialize tree_of]. cbn [app]. rewrite value_keyword_array.
    destruct l as [| v l]; [reflexivity |].
    cbn [map]. rewrite <- app_assoc. cbn [app].
    destruct (serialize_head v) as (c & r & Hc & Hws & Hclose & _).
    destruct (join_head (serialize v) (map serialize l) ("]"%char :: rest))
      as [tl Htl].
    rewrite Htl, Hc. cbn [app skip_ws]. rewrite Hws, Hclose.
    change (c :: r ++ tl) with ((c :: r) ++ tl). rewrite <- Hc, <- Htl.
    apply (elements_serialize (v :: l) IH ltac:(done) [] rest fuel).
    simpl in Hfuel. simpl. lia.
  - cbn [serialize tree_of]. cbn [app]. rewrite value_keyword_object.
    destruct l as [| [k v] l]; [reflexivity |].
    cbn [map fst snd]. rewrite <- app_assoc. cbn [app].
    destruct (join_head (quote k ++ ":"%char :: serialize v)
                (map (fun kv => quote (fst kv) ++ ":"%char :: serialize (snd kv)) l)
                ("}"%char :: rest)) as [tl Htl].
    rewrite Htl. unfold quote at 1. cbn [app skip_ws].
    change (is_ws dquote) with false. cbv iota.
    change (is_char dquote "}") with false. cbv iota.
    change (dquote :: (escape (list_ascii_of_string k) ++ [dquote])
                      ++ ":"%char :: serialize v ++ tl)
      with ((quote k ++ ":"%char :: serialize v) ++ tl).
    rewrite <- Htl.
    apply (members_serialize ((k, v) :: l) IH ltac:(done) [] rest fuel).
    simpl in Hfuel. simpl. lia.
Qed.

Lemma serialize_length (v : jsvalue) : (weight v <= length (serialize v))%nat.
Proof.
  induction v as [| b | z | s | l IH | l IH] using jsvalue_nested_ind.
  - simpl. lia.
  - destruct b; simpl; lia.
  - destruct (toString_head z) as (c & r & Hc & _). cbn [serialize weight].
    rewrite Hc. simpl. lia.
  - cbn [serialize weight]. unfold quote. simpl. lia.
  - cbn [serialize weight]. cbn [length]. rewrite length_app. cbn [length].
    enough (sum_list (map (fun x => S (weight x)) l)
            <= S (length (join (map serialize l))))%nat by lia.
    induction IH as [| v l Hv _ IHl]; [simpl; lia |].
    destruct l as [| v2 l]; cbn [map] in *.
    + simpl. lia.
    + rewrite join_cons2, length_app. cbn [length].
      change (sum_list (?x :: ?l)) with (x + sum_list l)%nat. lia.
  - cbn [serialize weight]. cbn [length]. rewrite length_app. cbn [length].
    enough (sum_list (map (fun kv => S (weight (snd kv))) l)
            <= S (length (join (map (fun kv => quote (fst kv) ++ ":"%char
                                                 :: serialize (snd kv)) l))))%nat
      by lia.
    induction IH as [| [k v] l Hv _ IHl]; [simpl; lia |].
    destruct l as [| kv2 l]; cbn [map fst snd] in *.
    + simpl. rewrite length_app. simpl. lia.
    + rewrite join_cons2, !length_app. cbn [length].
      change (sum_list (?x :: ?l)) with (x + sum_list l)%nat. lia.
Qed.

End JSFacts.

Lemma stringify_nonempty (v : JS.jsvalue) : JS.stringify v <> "".
Proof.
  unfold JS.stringify.
  destruct (JSFacts.serialize_head v) as (c & r & -> & _). done.
Qed.

Lemma parse_stringify_tree (v : JS.jsvalue) :
  JSON.parse (JS.stringify v) = Some (JS.tree_of v).
Proof.
  unfold JSON.parse, JSON.parse_with, JSON.fuel_for, JS.stringify.
  rewrite list_ascii_of_string_of_list_ascii.
  rewrite <- (app_nil_r (JS.serialize v)) at 2.
  rewrite (JSFacts.value_serialize v [] _ I).
  - reflexivity.
  - rewrite chars_length, list_ascii_of_string_of_list_ascii.
    pose proof (JSFacts.serialize_length v). lia.
Qed.

(** X15: the text [JSON.stringify] writes for a value is never empty, and
    [JSON.parse] reads it back as the syntax tree of the value: the same
    structure, every number as its decimal digits, every string with the
    escapes in which it was written. *)
Theorem parse_stringify (v : JS.jsvalue) :
  JS.stringify v <> "" /\ JSON.parse (JS.stringify v) = Some (JS.tree_of v).
Proof.
  split; [apply stringify_nonempty | apply parse_stringify_tree].
Qed.

(** *** From the syntax tree back to the value *)

Lemma unescape_escape_char (c : ascii) (tl : list ascii) :
  JS.unescape (JS.escape_char c ++ tl) = cons c <$> JS.unescape tl.
Proof.
  destruct c as [[] [] [] [] [] [] [] []]; reflexivity.
Qed.

Lemma unescape_escape (s : list ascii) : JS.unescape (JS.escape s) = Some s.
Proof.
  induction s as [| c s IH]; [reflexivity |].
  unfold JS.escape in *. cbn [flat_map].
  by rewrite unescape_escape_char, IH.
Qed.

Lemma unescaped_escaped (s : string) : JS.unescaped (JS.escaped s) = Some s.
Proof.
  unfold JS.unescaped, JS.escaped.
  rewrite list_ascii_of_string_of_list_ascii, unescape_escape. cbn.
  by rewrite string_of_list_ascii_of_string.
Qed.

Lemma traverse_cons {A B : Type} (f : A -> option B) (x : A) (l : list A) :
  JS.traverse f (x :: l)
  = y ← f x; ys ← JS.traverse f l; Some (y :: ys).
Proof. reflexivity. Qed.

Lemma number_of_literal_toString (z : Z) :
  Num.isSafeInteger z = true -> JS.number_of_literal (Num.toString z) = Some z.
Proof.
  intros Hz%isSafeInteger_spec. unfold JS.number_of_literal, Num.toString.
  rewrite NilZero.isi.
  - cbn. rewrite DecimalZ.of_to, of_Z_exact by lia. reflexivity.
  - destruct z; cbn; try done.
    intros [= E]. by apply (DecimalPos.Unsigned.to_uint_nonnil p).
  - destruct z; cbn; try done.
    intros [= E]. by apply (DecimalPos.Unsigned.to_uint_nonnil p).
Qed.

Lemma denote_tree_of (v : JS.jsvalue) :
  JS.wellformed v -> JS.denote (JS.tree_of v) = Some v.
Proof.
  intros Hwf.
  induction v as [| b | z | s | l IH | l IH] using JSFacts.jsvalue_nested_ind.
  - reflexivity.
  - reflexivity.
  - inversion Hwf as [| | z' Hz | | |]; subst. cbn [JS.tree_of JS.denote].
    by rewrite number_of_literal_toString.
  - cbn [JS.tree_of JS.denote]. by rewrite unescaped_escaped.
  - inversion Hwf as [| | | | l' Hl |]; subst. cbn [JS.tree_of JS.denote].
    enough (JS.traverse JS.denote (map JS.tree_of l) = Some l) as -> by done.
    clear Hwf.
    induction IH as [| v l Hv _ IHl]; [reflexivity |].
    apply Forall_cons in Hl as [Hwv Hwl].
    cbn [map]. rewrite traverse_cons, (Hv Hwv), (IHl Hwl). reflexivity.
  - inversion Hwf as [| | | | | l' Henum Hl]; subst. cbn [JS.tree_of JS.denote].
    enough (JS.traverse
              (fun kt => k ← JS.unescaped (fst kt); v ← JS.denote (snd kt);
                         Some (k, v))
              (map (fun kv => (JS.escaped (fst kv), JS.tree_of (snd kv))) l)
            = Some l) as ->.
    { cbn. by rewrite Henum. }
    clear Henum Hwf.
    induction IH as [| [k v] l Hv _ IHl]; [reflexivity |].
    apply Forall_cons in Hl as [Hwv Hwl].
    cbn [map]. rewrite traverse_cons, (IHl Hwl). cbn [fst snd] in *.
    rewrite unescaped_escaped, (Hv Hwv). reflexivity.
Qed.

(** X16: the syntax tree that [JSON.parse] reads from the text of a value
    denotes that value, the numbers of the value being safe integers and
    the properties of its objects listed in the order of enumeration:
    parsing what [JSON.stringify] wrote gives back the value, strings with
    quotation marks, backslashes and control characters included. *)
Theorem denote_parse_stringify (v : JS.jsvalue) :
  JS.wellformed v ->
  exists t, JSON.parse (JS.stringify v) = Some t /\ JS.denote t = Some v.
Proof.
  intros Hwf. exists (JS.tree_of v).
  split; [apply parse_stringify_tree | by apply denote_tree_of].
Qed.

(** ** Saving and restoring the column state *)

(** X17: [saveColumnState] followed by [restoreColumnState], the grid
    being ready: both return, the two alerts are shown in this order, and
    the grid is given one column state, read from what was saved, whatever
    was stored under the key before; it denotes the saved value when that
    is a value whose numbers are safe integers. *)
Theorem saveColumnState_restore (colState : JS.jsvalue) (w : world) :
  gridReady w = true ->
  exists w1 w2 state,
    saveColumnState colState w = Returned w1
    /\ restoreColumnState w1 = Returned w2
    /\ localStorage w2 !! "ag-grid-column-state" = Some (JS.stringify colState)
    /\ alerts w2 = alerts w ++ ["Column state saved to localStorage";
                                "Column state restored"]
    /\ columnStates w2 = columnStates w ++ [state]
    /\ (JS.wellformed colState -> JS.denote state = Some colState).
Proof.
  intros Hready. unfold saveColumnState. rewrite Hready.
  set (w1 := perform _ _).
  assert (Hraw : localStorage w1 !! "ag-grid-column-state"
                 = Some (JS.stringify colState)).
  { subst w1. cbn [perform setItem localStorage]. apply lookup_insert_eq. }
  destruct (restoreColumnState_valid w1 (JS.stringify colState)
              (JS.tree_of colState) Hraw (stringify_nonempty colState)
              (parse_stringify_tree colState) Hready)
    as (w2 & Hw2 & Ha & Hc).
  exists w1, w2, (JS.tree_of colState).
  split; [done |]. split; [done |]. split.
  - unfold restoreColumnState in Hw2. rewrite Hraw in Hw2.
    cbn [falsy] in Hw2.
    rewrite bool_decide_eq_false_2 in Hw2 by apply stringify_nonempty.
    change (default "" (Some ?raw)) with raw in Hw2.
    rewrite parse_stringify_tree in Hw2.
    change (gridReady w1) with (gridReady w) in Hw2. rewrite Hready in Hw2.
    injection Hw2 as <-. exact Hraw.
  - split; [| split; [| apply denote_tree_of]].
    + rewrite Ha. subst w1. rewrite alerts_perform.
      unfold alerts, setItem. cbn [effects]. by rewrite <- app_assoc.
    + rewrite Hc. subst w1. rewrite columnStates_perform, app_nil_r.
      reflexivity.
Qed.

(** X18: [saveColumnState] changes the entry of local storage under its
    key and no other, sets no column state and, when it returns, has shown
    its alert; before the grid has reported readiness it ends with a
    [TypeError], nothing written and no alert shown. *)
Theorem saveColumnState_frame (colState : JS.jsvalue) (w : world) :
  match saveColumnState colState w with
  | Returned w' =>
    gridReady w = true
    /\ localStorage w' !! "ag-grid-column-state" = Some (JS.stringify colState)
    /\ (forall key, key <> "ag-grid-column-state" ->
          localStorage w' !! key = localStorage w !! key)
    /\ alerts w' = alerts w ++ ["Column state saved to localStorage"]
    /\ columnStates w' = columnStates w
  | Threw e w' => gridReady w = false /\ e = TypeError /\ w' = w
  end.
Proof.
  unfold saveColumnState. destruct (gridReady w) eqn:Hready; [| done].
  split; [done |]. cbn [perform setItem localStorage]. split.
  - apply lookup_insert_eq.
  - split; [| split].
    + intros key Hkey. by apply lookup_insert_ne.
    + rewrite alerts_perform. reflexivity.
    + rewrite columnStates_perform, app_nil_r. reflexivity.
Qed.

(** ** Sessions *)

Lemma not_matches_others (tid : string) (r : Row) (l : list Row) :
  matches tid r -> id r ∉ id <$> l -> Forall (fun r' => ~ matches tid r') l.
Proof.
  unfold matches. intros Hm Hnotin. apply Forall_forall. intros r' Hr' Hm'.
  apply Hnotin. rewrite <- Hm in Hm'. apply toString_inj in Hm'.
  rewrite <- Hm'. by apply list_elem_of_fmap_2.
Qed.

Lemma toggleActive_unique (tid : string) (l1 l2 : list Row) (r : Row) :
  NoDup (id <$> l1 ++ r :: l2) -> matches tid r ->
  toggleActive tid (l1 ++ r :: l2)
  = l1 ++ {| id := id r; name := name r; age := age r; city := city r;
             product := product r; amount := amount r;
             active := negb (active r); joined := joined r |} :: l2.
Proof.
  intros Hnd Hm. rewrite fmap_app, fmap_cons in Hnd.
  apply NoDup_app in Hnd as (_ & H1 & [H2 _]%NoDup_cons).
  pose proof (toggleActive_no_match tid l1
                (not_matches_others tid r l1 Hm
                   (fun Hin => H1 _ Hin ltac:(left)))) as E1.
  pose proof (toggleActive_no_match tid l2
                (not_matches_others tid r l2 Hm H2)) as E2.
  unfold toggleActive in *. rewrite fmap_app, fmap_cons, E1, E2.
  unfold matches in Hm. by rewrite decide_True.
Qed.

(** X19: in a session of at most [2 ^ 53 - 101] actions, the buttons of a
    row act on that row and no other: a click on "Editar" in the row of
    the record [r] negates the active flag of [r] and leaves every other
    record and the order as they are, a click on "Excluir" removes [r]
    and nothing else once the dialog is confirmed, and changes nothing
    when it is declined. *)
Theorem rowData_buttons (random : nat -> unit_double)
    (localDateISO : Z -> Z -> Z -> string) (confirm : string -> bool)
    (acts : list action) (n : nat) (l1 l2 : list Row) (r : Row) :
  Z.of_nat (length acts) <= 2 ^ 53 - 101 ->
  (rowData random localDateISO acts n).1 = l1 ++ r :: l2 ->
  onCellClicked confirm (click "edit" (Num.toString (id r))) (l1 ++ r :: l2)
  = l1 ++ {| id := id r; name := name r; age := age r; city := city r;
             product := product r; amount := amount r;
             active := negb (active r); joined := joined r |} :: l2
  /\ onCellClicked confirm (click "del" (Num.toString (id r))) (l1 ++ r :: l2)
     = if confirm (deletePrompt (Num.toString (id r)))
       then l1 ++ l2 else l1 ++ r :: l2.
Proof.
  intros Hk Hrows.
  destruct (rowData_unique_ids random localDateISO acts n Hk) as [Hnd _].
  rewrite Hrows in Hnd. split.
  - rewrite onCellClicked_edit by apply toString_nonempty.
    by apply toggleActive_unique.
  - rewrite onCellClicked_del by apply toString_nonempty.
    unfold deletePrompt. destruct (confirm _); [| done].
    by apply deleteRow_unique.
Qed.

Lemma run_app (random : nat -> unit_double)
    (localDateISO : Z -> Z -> Z -> string) (acts1 acts2 : list action)
    (rows : list Row) (n : nat) :
  run random localDateISO (acts1 ++ acts2) rows n
  = run random localDateISO acts2
      (run random localDateISO acts1 rows n).1
      (run random localDateISO acts1 rows n).2.
Proof.
  revert rows n. induction acts1 as [| a rest IH]; intros rows n; [done |].
  cbn [app run]. unfold mbind, Rand_bind.
  destruct (step random localDateISO a rows n) as [rows' n']. apply IH.
Qed.

(** X20: a confirmed reset starts the session over, whatever was done
    before it: the ids are 1, ..., 100 again, and the rows added after it
    are numbered on from 101, ids given before the reset being given
    again. *)
Theorem rowData_reset (random : nat -> unit_double)
    (localDateISO : Z -> Z -> Z -> string) (confirm : string -> bool)
    (acts : list action) (todays : list string) (n : nat) :
  confirm "Resetar os 100 dados gerados inicialmente?" = true ->
  Z.of_nat (length todays) <= 2 ^ 53 - 101 ->
  id <$> (rowData random localDateISO
            (acts ++ ResetData confirm :: (AddRow <$> todays)) n).1
  = reverse (seqZ 101 (Z.of_nat (length todays))) ++ seqZ 1 100.
Proof.
  intros Hyes Hk. unfold rowData, mbind, Rand_bind.
  destruct (generateData random localDateISO n) as [rows0 n0].
  rewrite run_app.
  destruct (run random localDateISO acts rows0 n0) as [rows1 n1].
  cbn [fst snd run step]. unfold mbind, Rand_bind, onResetData.
  rewrite Hyes. cbn [negb]. rewrite generateData_closed_form.
  apply (run_AddRow_ids random localDateISO todays _ 0); [done |].
  by rewrite genRows_ids.
Qed.

(** * The further statements at sample inputs *)

Lemma Sample_edit_changes :
  onCellClicked Sample.yes (click "edit" "1") Sample.rows <> Sample.rows.
Proof. intros E. vm_compute in E. discriminate E. Defined.

(** X1 at a click on "Editar" in the row with id 1. *)
Lemma onCellClicked_guards_witness :
  onCellClicked Sample.yes (click "edit" "1") Sample.rows <> Sample.rows
  /\ exists tid : string,
       dataAttribute "id" (click "edit" "1") = Some tid /\ tid <> "".
Proof.
  split; [exact Sample_edit_changes |].
  destruct (onCellClicked_guards Sample.yes (click "edit" "1") Sample.rows
              Sample_edit_changes) as (tid & Hid & Hne & _).
  exists tid. split; [exact Hid | exact Hne].
Defined.

(** X5 on the sample rows: the row added has id 3. *)
Lemma onAddRow_then_delete_witness :
  safe_ids Sample.rows
  /\ onCellClicked Sample.yes (click "del" "3")
       (onAddRow Sample.random "2024-05-01" Sample.rows 0%nat).1
     = Sample.rows.
Proof.
  exact (conj Sample_rows_safe
           (onAddRow_then_delete Sample.random "2024-05-01" Sample.yes
              Sample.rows 0%nat Sample_rows_safe eq_refl)).
Defined.

Lemma Sample_rows_max : is_max 2 (id <$> Sample.rows).
Proof.
  split; [left |]. intros x Hx. apply list_elem_of_In in Hx. simpl in Hx.
  destruct Hx as [<- | [<- | []]]; lia.
Defined.

(** X6 on the sample rows: with the record of id 2 deleted, the next id is
    2 again. *)
Lemma nextId_reuses_deleted_witness :
  is_max 2 (id <$> Sample.rows) /\ nextId (deleteRow "2" Sample.rows) = 2.
Proof.
  split; [exact Sample_rows_max |].
  apply (nextId_reuses_deleted Sample.rows 2 Sample_rows_safe Sample_rows_max).
  right. left.
Defined.

(** X7 on the sample rows. *)
Lemma onAddRow_fields_witness :
  exists newRow : Row,
    head (onAddRow Sample.random "2024-05-01" Sample.rows 0%nat).1 = Some newRow
    /\ name newRow = "Cliente 3" /\ 18 <= age newRow <= 77
    /\ joined newRow = "2024-05-01".
Proof.
  eexists. split; [reflexivity |].
  destruct (onAddRow_fields Sample.random "2024-05-01" Sample.rows 0%nat _ eq_refl)
    as (Hname & Hage & _ & Hjoined).
  split; [exact Hname |]. split; [exact Hage | exact Hjoined].
Defined.

(** X8 after two additions. *)
Lemma rowData_added_ids_witness :
  id <$> (rowData Sample.random Sample.localDateISO
            [AddRow "2024-05-01"; AddRow "2024-05-02"] 0%nat).1
  = 102 :: 101 :: seqZ 1 100.
Proof.
  apply (rowData_added_ids Sample.random Sample.localDateISO
           ["2024-05-01"; "2024-05-02"] 0%nat).
  simpl. lia.
Defined.

(** X14 with a state saved over several lines and the grid not ready. *)
Lemma restoreColumnState_not_ready_witness :
  gridReady Saved.notReady = false
  /\ restoreColumnState Saved.notReady = Threw TypeError Saved.notReady.
Proof.
  split; [reflexivity |].
  destruct (restoreColumnState_not_ready Saved.notReady eq_refl) as [Hsaved _].
  apply (Hsaved Sample.multiline (JSON.JArray [JSON.JObject []])).
  - apply lookup_singleton_eq.
  - discriminate.
  - vm_compute. reflexivity.
Defined.

Lemma Saved_colState_wellformed : JS.wellformed Saved.colState.
Proof. repeat constructor. Defined.

(** X16 at the state of two columns. *)
Lemma denote_parse_stringify_witness :
  JS.wellformed Saved.colState
  /\ exists t, JSON.parse (JS.stringify Saved.colState) = Some t
               /\ JS.denote t = Some Saved.colState.
Proof.
  exact (conj Saved_colState_wellformed
           (denote_parse_stringify Saved.colState Saved_colState_wellformed)).
Defined.

(** X17 at the state of two columns, nothing being saved before. *)
Lemma saveColumnState_restore_witness :
  gridReady Sample.nothingSaved = true
  /\ exists w1 w2 state,
       saveColumnState Saved.colState Sample.nothingSaved = Returned w1
       /\ restoreColumnState w1 = Returned w2
       /\ alerts w2 = ["Column state saved to localStorage";
                       "Column state restored"]
       /\ columnStates w2 = [state]
       /\ JS.denote state = Some Saved.colState.
Proof.
  split; [reflexivity |].
  destruct (saveColumnState_restore Saved.colState Sample.nothingSaved eq_refl)
    as (w1 & w2 & state & Hsave & Hrestore & _ & Ha & Hc & Hd).
  exists w1, w2, state.
  split; [exact Hsave |]. split; [exact Hrestore |].
  split; [exact Ha |]. split; [exact Hc |].
  exact (Hd Saved_colState_wellformed).
Defined.

(** X19 at the first row of the initial render. *)
Lemma rowData_buttons_witness :
  exists (r : Row) (l2 : list Row),
    (rowData Sample.random Sample.localDateISO [] 0%nat).1 = r :: l2
    /\ id r = 1
    /\ onCellClicked Sample.yes (click "del" "1") (r :: l2) = l2.
Proof.
  destruct (rowData Sample.random Sample.localDateISO [] 0%nat).1
    as [| r l2] eqn:Hrows; [vm_compute in Hrows; discriminate Hrows |].
  exists r, l2. split; [reflexivity |].
  assert (Hid : id r = 1).
  { vm_compute in Hrows. injection Hrows as <- _. reflexivity. }
  split; [exact Hid |].
  destruct (rowData_buttons Sample.random Sample.localDateISO Sample.yes
              [] 0%nat [] l2 r ltac:(simpl; lia) Hrows) as [_ Hdel].
  rewrite Hid in Hdel. exact Hdel.
Defined.

(** X20: a reset after one addition, and one addition after it. *)
Lemma rowData_reset_witness :
  id <$> (rowData Sample.random Sample.localDateISO
            [AddRow "2024-05-01"; ResetData Sample.yes; AddRow "2024-05-02"]
            0%nat).1
  = 101 :: seqZ 1 100.
Proof.
  apply (rowData_reset Sample.random Sample.localDateISO Sample.yes
           [AddRow "2024-05-01"] ["2024-05-02"] 0%nat eq_refl).
  simpl. lia.
Defined.
